(** * bpUtil.js: search-term extraction and hashed keys

    A shallow embedding of [lib/bpUtil.js] (the blushproof add-on) and the
    properties its specification states about it.

    The module is JavaScript running on the Mozilla platform.  JavaScript
    strings are sequences of UTF-16 code units, numbers that index strings
    are integers, property reads walk the prototype chain, exceptions
    propagate unless a [try]/[catch] stops them, and [console.log] appends to
    a console.  All of that is kept explicit below. *)

From Stdlib Require Import List ZArith NArith Lia Bool String Ascii.
Import ListNotations.

Local Open Scope Z_scope.

(** ** JavaScript strings *)

(** A string value: its UTF-16 code units, in order. *)
Definition jsstring := list N.

(** A string literal of the source (ASCII text). *)
Definition js (s : string) : jsstring :=
  map N_of_ascii (list_ascii_of_string s).

Definition jsstring_eqb (a b : jsstring) : bool :=
  if list_eq_dec N.eq_dec a b then true else false.

(** [s.length] *)
Definition strlen (s : jsstring) : Z := Z.of_nat (List.length s).

(** [p] is the beginning of [s], code unit for code unit. *)
Fixpoint startsWith (s p : jsstring) : bool :=
  match p, s with
  | [], _ => true
  | _ :: _, [] => false
  | c :: p', d :: s' => N.eqb c d && startsWith s' p'
  end.

(** [s.indexOf(searchString)] (ES5.1 15.5.4.7, position 0): the smallest index
    at which [searchString] occurs in [s], or -1. *)
Fixpoint indexOf (s searchString : jsstring) : Z :=
  if startsWith s searchString then 0
  else match s with
       | [] => -1
       | _ :: t =>
           let k := indexOf t searchString in
           if k =? -1 then -1 else k + 1
       end.

(** [s.substr(start, length)] (ES5.1 B.2.3); [length] is [None] when the
    argument is left out. *)
Definition substr (s : jsstring) (start : Z) (length : option Z) : jsstring :=
  let size := strlen s in
  let from := if start <? 0 then Z.max (size + start) 0 else start in
  let count :=
    match length with
    | None => size - from
    | Some l => Z.min (Z.max l 0) (size - from)
    end in
  if count <=? 0 then []
  else firstn (Z.to_nat count) (skipn (Z.to_nat from) s).

(** [s.slice(start, end)] (ES5.1 15.5.4.13); [end] is [None] when left out. *)
Definition slice (s : jsstring) (start : Z) (end_ : option Z) : jsstring :=
  let len := strlen s in
  let clamp i := if i <? 0 then Z.max (len + i) 0 else Z.min i len in
  let from := clamp start in
  let to := match end_ with None => len | Some e => clamp e end in
  let span := Z.max (to - from) 0 in
  firstn (Z.to_nat span) (skipn (Z.to_nat from) s).

(** [s.replace(searchValue, replaceValue)] with a string [searchValue]
    (ES5.1 15.5.4.11): only the first occurrence is replaced.  The
    replacement text is inserted as it is, which is what JavaScript does for a
    [replaceValue] without a dollar sign; the module's one call passes a
    single space. *)
Definition replace (s searchValue replaceValue : jsstring) : jsstring :=
  let k := indexOf s searchValue in
  if k =? -1 then s
  else firstn (Z.to_nat k) s ++ replaceValue
       ++ skipn (Z.to_nat k + List.length searchValue) s.

(** [a.join(sep)] on an array of strings. *)
Fixpoint join (sep : jsstring) (parts : list jsstring) : jsstring :=
  match parts with
  | [] => []
  | [p] => p
  | p :: rest => p ++ sep ++ join sep rest
  end.

(** [s.split(sep)] for a separator of one code unit: the pieces between the
    separators; never an empty array. *)
Fixpoint split (sep : N) (s : jsstring) : list jsstring :=
  match s with
  | [] => [[]]
  | c :: t =>
      if N.eqb c sep then [] :: split sep t
      else match split sep t with
           | [] => [[c]]
           | p :: ps => (c :: p) :: ps
           end
  end.

(** ** URI decoding (ES5.1 15.1.3) *)

(** The value of a hexadecimal digit, if the code unit is one. *)
Definition hexval (c : N) : option N :=
  if (48 <=? c)%N && (c <=? 57)%N then Some (c - 48)%N
  else if (65 <=? c)%N && (c <=? 70)%N then Some (c - 55)%N
  else if (97 <=? c)%N && (c <=? 102)%N then Some (c - 87)%N
  else None.

(** A string read for decoding: plain code units, and escapes [%XX] with the
    octet they denote and the two digits as written. *)
Inductive token :=
| Lit (c : N)
| Esc (octet : N) (h1 h2 : N).

(** Every percent sign must be followed by two hexadecimal digits; the
    abstract operation Decode throws [URIError] otherwise. *)
Fixpoint tokens (s : jsstring) : option (list token) :=
  match s with
  | [] => Some []
  | c :: t =>
      if N.eqb c 37 then
        match t with
        | h1 :: h2 :: rest =>
            match hexval h1, hexval h2, tokens rest with
            | Some a, Some b, Some ts => Some (Esc (16 * a + b) h1 h2 :: ts)
            | _, _, _ => None
            end
        | _ => None
        end
      else option_map (cons (Lit c)) (tokens t)
  end.

Definition written (h1 h2 : N) : jsstring := [37%N; h1; h2].

(** A continuation octet of UTF-8: [10xxxxxx]. *)
Definition continuation (b : N) : bool := N.eqb (N.land b 192) 128.

(** What Decode appends for the code point [V] read from the escapes whose
    text is [orig]: the character (a surrogate pair above the BMP) unless it
    is reserved, in which case the escapes stay as written. *)
Definition decoded (reserved : N -> bool) (V : N) (orig : jsstring) : jsstring :=
  if (V <? 65536)%N then (if reserved V then orig else [V])
  else [(N.land (N.shiftr (V - 65536) 10) 1023 + 55296);
        (N.land (V - 65536) 1023 + 56320)]%N.

Fixpoint decodeTokens (reserved : N -> bool) (ts : list token)
  : option jsstring :=
  match ts with
  | [] => Some []
  | Lit c :: r => option_map (cons c) (decodeTokens reserved r)
  | Esc b h1 h2 :: r =>
      if (b <? 128)%N then
        option_map (app (decoded reserved b (written h1 h2)))
                   (decodeTokens reserved r)
      else if (b <? 192)%N then None
      else if (b <? 224)%N then
        match r with
        | Esc b2 i1 i2 :: r2 =>
            let V := (N.shiftl (N.land b 31) 6 + N.land b2 63)%N in
            if continuation b2 && (128 <=? V)%N then
              option_map
                (app (decoded reserved V (written h1 h2 ++ written i1 i2)))
                (decodeTokens reserved r2)
            else None
        | _ => None
        end
      else if (b <? 240)%N then
        match r with
        | Esc b2 i1 i2 :: Esc b3 j1 j2 :: r3 =>
            let V := (N.shiftl (N.land b 15) 12 + N.shiftl (N.land b2 63) 6
                      + N.land b3 63)%N in
            if continuation b2 && continuation b3 && (2048 <=? V)%N
               && negb ((55296 <=? V)%N && (V <=? 57343)%N) then
              option_map
                (app (decoded reserved V
                        (written h1 h2 ++ written i1 i2 ++ written j1 j2)))
                (decodeTokens reserved r3)
            else None
        | _ => None
        end
      else if (b <? 248)%N then
        match r with
        | Esc b2 i1 i2 :: Esc b3 j1 j2 :: Esc b4 k1 k2 :: r4 =>
            let V := (N.shiftl (N.land b 7) 18 + N.shiftl (N.land b2 63) 12
                      + N.shiftl (N.land b3 63) 6 + N.land b4 63)%N in
            if continuation b2 && continuation b3 && continuation b4
               && (65536 <=? V)%N && (V <=? 1114111)%N then
              option_map
                (app (decoded reserved V
                        (written h1 h2 ++ written i1 i2 ++ written j1 j2
                         ++ written k1 k2)))
                (decodeTokens reserved r4)
            else None
        | _ => None
        end
      else None
  end.

(** The abstract operation Decode; [None] stands for the [URIError] it
    throws. *)
Definition Decode (reserved : N -> bool) (s : jsstring) : option jsstring :=
  match tokens s with
  | Some ts => decodeTokens reserved ts
  | None => None
  end.

(** The reserved set of [decodeURI]: the characters ; / ? : @ & = + $ , and
    the number sign. *)
Definition uriReservedPlusPound (c : N) : bool :=
  existsb (N.eqb c) (js ";/?:@&=+$,#").

Definition decodeURI_string (s : jsstring) : option jsstring :=
  Decode uriReservedPlusPound s.

Definition decodeURIComponent_string (s : jsstring) : option jsstring :=
  Decode (fun _ => false) s.

(** ** Numbers as text *)

(** The digit of a value below sixteen, lowercase as [toString(16)] writes
    it. *)
Definition hexdigit (d : N) : N :=
  if (d <? 10)%N then (48 + d)%N else (87 + d)%N.

Fixpoint toString16_digits (fuel : nat) (n : N) (acc : jsstring) : jsstring :=
  match fuel with
  | O => acc
  | S fuel' =>
      let acc' := hexdigit (n mod 16) :: acc in
      if (n / 16 =? 0)%N then acc' else toString16_digits fuel' (n / 16)%N acc'
  end.

(** [n.toString(16)] for a non-negative integer: its hexadecimal digits, most
    significant first, no leading zero.  A number below 2^k has at most k
    digits, so the fuel never runs out. *)
Definition toString16 (n : N) : jsstring :=
  toString16_digits (S (N.to_nat (N.log2 n))) n [].

(** ** The platform's Unicode converter and hash *)

Definition isHighSurrogate (c : N) : bool := (55296 <=? c)%N && (c <=? 56319)%N.
Definition isLowSurrogate (c : N) : bool := (56320 <=? c)%N && (c <=? 57343)%N.

(** The UTF-8 octets of a code point. *)
Definition utf8_of_codepoint (v : N) : list N :=
  (if v <? 128 then [v]
   else if v <? 2048 then [192 + N.shiftr v 6; 128 + N.land v 63]
   else if v <? 65536 then
     [224 + N.shiftr v 12; 128 + N.land (N.shiftr v 6) 63; 128 + N.land v 63]
   else
     [240 + N.land (N.shiftr v 18) 7; 128 + N.land (N.shiftr v 12) 63;
      128 + N.land (N.shiftr v 6) 63; 128 + N.land v 63])%N.

Definition replacement_character : list N := [239; 191; 189]%N.

(** [nsIScriptableUnicodeConverter.convertToByteArray] with charset UTF-8:
    a surrogate pair is one code point, and a surrogate without its partner is
    written as U+FFFD. *)
Fixpoint convertToByteArray (s : jsstring) : list N :=
  match s with
  | [] => []
  | c :: t =>
      if isHighSurrogate c then
        match t with
        | d :: t' =>
            if isLowSurrogate d then
              utf8_of_codepoint (65536 + N.shiftl (c - 55296) 10 + (d - 56320))%N
              ++ convertToByteArray t'
            else replacement_character ++ convertToByteArray t
        | [] => replacement_character
        end
      else if isLowSurrogate c then replacement_character ++ convertToByteArray t
      else utf8_of_codepoint c ++ convertToByteArray t
  end.

(** SHA-256 (FIPS 180-4) on 32-bit words kept in [N], every sum reduced
    modulo 2^32. *)
Module SHA256.

Definition add32 (a b : N) : N := ((a + b) mod 4294967296)%N.

Definition rotr (n x : N) : N :=
  N.lor (N.shiftr x n) (N.land (N.shiftl x (32 - n)) 4294967295).

Definition Ch (x y z : N) : N :=
  N.lxor (N.land x y) (N.land (N.lxor x 4294967295) z).

Definition Maj (x y z : N) : N :=
  N.lxor (N.lxor (N.land x y) (N.land x z)) (N.land y z).

Definition Sigma0 (x : N) : N := N.lxor (N.lxor (rotr 2 x) (rotr 13 x)) (rotr 22 x).
Definition Sigma1 (x : N) : N := N.lxor (N.lxor (rotr 6 x) (rotr 11 x)) (rotr 25 x).
Definition sigma0 (x : N) : N := N.lxor (N.lxor (rotr 7 x) (rotr 18 x)) (N.shiftr x 3).
Definition sigma1 (x : N) : N := N.lxor (N.lxor (rotr 17 x) (rotr 19 x)) (N.shiftr x 10).

(** The first 64 primes. *)
Definition primes : list N :=
  map N.of_nat
    (filter (fun p => forallb (fun d => negb (Nat.eqb (Nat.modulo p d) 0))
                              (seq 2 (p - 2)))
            (seq 2 310)).

(** The integer cube root below 2^36, one bit at a time. *)
Definition cube_root (n : N) : N :=
  fold_left (fun r b => let r' := (r + N.shiftl 1 (N.of_nat b))%N in
                        if (r' * r' * r' <=? n)%N then r' else r)
            (rev (seq 0 36)) 0%N.

(** The round constants: the first 32 bits of the fractional parts of the
    cube roots of the first 64 primes. *)
Definition K : list N :=
  Eval vm_compute in
    map (fun p => (cube_root (N.shiftl p 96) mod 4294967296)%N) primes.

(** The eight working words. *)
Record words8 := W8 { wa : N; wb : N; wc : N; wd : N; we : N; wf : N; wg : N; wh : N }.

(** The initial hash value: the first 32 bits of the fractional parts of the
    square roots of the first 8 primes. *)
Definition H0 : words8 :=
  Eval vm_compute in
    match map (fun p => (N.sqrt (N.shiftl p 64) mod 4294967296)%N) (firstn 8 primes) with
    | [a; b; c; d; e; f; g; h] => W8 a b c d e f g h
    | _ => W8 0 0 0 0 0 0 0 0
    end.

(** Big-endian words of a block of octets. *)
Fixpoint words_of (block : list N) : list N :=
  match block with
  | b0 :: b1 :: b2 :: b3 :: rest =>
      (N.shiftl b0 24 + N.shiftl b1 16 + N.shiftl b2 8 + b3)%N :: words_of rest
  | _ => []
  end.

(** The message schedule, newest word first: [n] more words after those of
    [wrev]. *)
Fixpoint schedule (n : nat) (wrev : list N) : list N :=
  match n with
  | O => wrev
  | S n' =>
      let w := add32 (add32 (sigma1 (nth 1 wrev 0%N)) (nth 6 wrev 0%N))
                     (add32 (sigma0 (nth 14 wrev 0%N)) (nth 15 wrev 0%N)) in
      schedule n' (w :: wrev)
  end.

Definition round (s : words8) (kw : N * N) : words8 :=
  let (k, w) := kw in
  let t1 := add32 (add32 (add32 (add32 (wh s) (Sigma1 (we s)))
                                (Ch (we s) (wf s) (wg s))) k) w in
  let t2 := add32 (Sigma0 (wa s)) (Maj (wa s) (wb s) (wc s)) in
  W8 (add32 t1 t2) (wa s) (wb s) (wc s) (add32 (wd s) t1) (we s) (wf s) (wg s).

Definition compress (h : words8) (block : list N) : words8 :=
  let w := rev (schedule 48 (rev (words_of block))) in
  let s := fold_left round (combine K w) h in
  W8 (add32 (wa h) (wa s)) (add32 (wb h) (wb s)) (add32 (wc h) (wc s))
     (add32 (wd h) (wd s)) (add32 (we h) (we s)) (add32 (wf h) (wf s))
     (add32 (wg h) (wg s)) (add32 (wh h) (wh s)).

(** The message followed by the bit 1, zeros up to 56 modulo 64 octets, and
    the length in bits as a 64-bit big-endian number. *)
Definition pad (msg : list N) : list N :=
  let len := N.of_nat (List.length msg) in
  let zeros := N.to_nat ((119 - len mod 64) mod 64) in
  let bits := (8 * len)%N in
  msg ++ [128%N] ++ repeat 0%N zeros
      ++ map (fun i => N.land (N.shiftr bits (8 * i)) 255) [7; 6; 5; 4; 3; 2; 1; 0]%N.

(** The padded message, 64 octets at a time. *)
Fixpoint blocks (n : nat) (h : words8) (data : list N) : words8 :=
  match n with
  | O => h
  | S n' => blocks n' (compress h (firstn 64 data)) (skipn 64 data)
  end.

Definition word_octets (w : N) : list N :=
  [N.land (N.shiftr w 24) 255; N.land (N.shiftr w 16) 255;
   N.land (N.shiftr w 8) 255; N.land w 255].

(** The digest: 32 octets. *)
Definition digest (msg : list N) : list N :=
  let p := pad msg in
  let h := blocks (List.length p / 64) H0 p in
  flat_map word_octets [wa h; wb h; wc h; wd h; we h; wf h; wg h; wh h].

End SHA256.

(** [nsICryptoHash] initialised with SHA256, [update(data, data.length)] once
    and [finish(false)]: the digest as a binary string, one character per
    octet. *)
Definition cryptoHash_finish (data : list N) : jsstring := SHA256.digest data.

(** ** Values, objects and the prototype chain *)

Local Set Warnings "-register-all".

(** The values found in a parsed query string: [undefined], a string, an
    array, or a member inherited from [Object.prototype]. *)
Inductive value :=
| Undefined
| Str (s : jsstring)
| Arr (elems : list value)
| Builtin (name : jsstring).

(** A plain object: its own properties in insertion order. *)
Definition object := list (jsstring * value).

(** The members every plain object inherits from [Object.prototype]
    (ES5.1 15.2.4 and the engine's additions).  [Builtin name] is the member
    found under [name]. *)
Definition Object_prototype : list jsstring :=
  map js [ "constructor"; "toString"; "toLocaleString"; "valueOf";
           "hasOwnProperty"; "isPrototypeOf"; "propertyIsEnumerable";
           "toSource"; "watch"; "unwatch"; "__defineGetter__";
           "__defineSetter__"; "__lookupGetter__"; "__lookupSetter__";
           "__proto__" ]%string.

Definition inherited (key : jsstring) : bool :=
  existsb (jsstring_eqb key) Object_prototype.

Fixpoint own {A : Type} (props : list (jsstring * A)) (key : jsstring) : option A :=
  match props with
  | [] => None
  | (k, v) :: rest => if jsstring_eqb k key then Some v else own rest key
  end.

(** [o[key]]: the own property, else the inherited member, else
    [undefined]. *)
Definition Get (o : object) (key : jsstring) : value :=
  match own o key with
  | Some v => v
  | None => if inherited key then Builtin key else Undefined
  end.

(** [key in o] *)
Definition HasProperty (o : object) (key : jsstring) : bool :=
  match own o key with
  | Some _ => true
  | None => inherited key
  end.

(** [o[key] = v]: an own property keeps its place, a new one goes last. *)
Fixpoint Put (o : object) (key : jsstring) (v : value) : object :=
  match o with
  | [] => [(key, v)]
  | (k, w) :: rest =>
      if jsstring_eqb k key then (k, v) :: rest else (k, w) :: Put rest key v
  end.

(** ToString (ES5.1 9.8): an array is its elements joined by commas, an
    [undefined] element counting as empty; a native function is printed the
    way the engine prints it, under its own name ([constructor] is the
    function [Object]). *)
Fixpoint ToString (v : value) : jsstring :=
  match v with
  | Undefined => js "undefined"
  | Str s => s
  | Arr elems =>
      join (js ",")
        (map (fun e => match e with Undefined => [] | _ => ToString e end) elems)
  | Builtin name =>
      if jsstring_eqb name (js "__proto__") then js "[object Object]"
      else js "function "
           ++ (if jsstring_eqb name (js "constructor") then js "Object" else name)
           ++ js "() {" ++ [10%N] ++ js "    [native code]" ++ [10%N] ++ js "}"
  end.

(** ** Exceptions, the console and the module's state *)

Inductive exn :=
| URIError
| TypeError
| NSError (text : jsstring).

(** What [""+e] gives for an exception. *)
Definition exn_toString (e : exn) : jsstring :=
  match e with
  | URIError => js "URIError: malformed URI sequence"
  | TypeError => js "TypeError"
  | NSError text => text
  end.

(** How a call ends: with a value, or with an exception on its way to the
    caller. *)
Inductive completion (A : Type) :=
| Return (a : A)
| Throw (e : exn).
Arguments Return {A} a.
Arguments Throw {A} e.

(** A provider of [searchMap]: the path its search URLs start with and the
    query parameter holding the term. *)
Record ProviderEntry := { provider_path : jsstring; provider_query : jsstring }.

(** What the module holds while it is loaded: the object bound to
    [searchMap], and the console its messages go to (one list of arguments
    per [console.log]). *)
Record ModuleState := {
  st_searchMap : list (jsstring * ProviderEntry);
  console : list (list jsstring)
}.

(** A computation of the module: it may read and write the state and ends
    with a completion. *)
Definition M (A : Type) : Type := ModuleState -> completion A * ModuleState.

Definition ret {A} (a : A) : M A := fun st => (Return a, st).

Definition bind {A B} (c : M A) (k : A -> M B) : M B :=
  fun st =>
    match c st with
    | (Return a, st') => k a st'
    | (Throw e, st') => (Throw e, st')
    end.

Notation "x <- c ;; k" := (bind c (fun x => k))
  (at level 61, c at next level, right associativity).
Notation "c ;;; k" := (bind c (fun _ => k))
  (at level 61, right associativity).

(** A call into the platform or the engine. *)
Definition call {A} (r : completion A) : M A := fun st => (r, st).

(** [try { body } catch (e) { handler }] *)
Definition try_catch {A} (body : M A) (handler : exn -> M A) : M A :=
  fun st =>
    match body st with
    | (Return a, st') => (Return a, st')
    | (Throw e, st') => handler e st'
    end.

(** The state after one more message on the console. *)
Definition logged (args : list jsstring) (st : ModuleState) : ModuleState :=
  {| st_searchMap := st_searchMap st; console := console st ++ [args] |}.

(** [console.log(args...)] *)
Definition console_log (args : list jsstring) : M unit :=
  fun st => (Return tt, logged args st).

(** The read of the module-level binding [searchMap]. *)
Definition read_searchMap : M (list (jsstring * ProviderEntry)) :=
  fun st => (Return (st_searchMap st), st).

Definition option_completion {A} (o : option A) (e : exn) : completion A :=
  match o with
  | Some a => Return a
  | None => Throw e
  end.

(** [decodeURI(v)]: ToString, then Decode. *)
Definition decodeURI (v : value) : completion jsstring :=
  option_completion (decodeURI_string (ToString v)) URIError.

Definition decodeURIComponent (s : jsstring) : completion jsstring :=
  option_completion (decodeURIComponent_string s) URIError.

(** ** The add-on SDK's [querystring] module

    [require("querystring")] is the SDK's module, not a file of this
    repository.  Its [parse] starts from an empty object, splits the query at
    the ampersands and each piece at the equals signs, decodes the name and
    the rest with [decodeURIComponent], and stores the value under the name:
    alone the first time, in an array from the second.  It returns that
    object, or lets the [URIError] of a malformed escape through.  It stands
    in for the parser wherever the module is run on a concrete URI; the
    module itself is embedded over any parser.

    A name found on [Object.prototype] counts as present from the start
    ([key in result]), so its first value already goes into an array next to
    the inherited member.  For the name [__proto__] the engine would make that
    array the prototype of the result instead of a property; the names this
    module reads from the result (q, p, field-keywords) are found on neither,
    so the embedding keeps it as a property. *)
Module querystring.

Definition unescape := decodeURIComponent.

Definition store (result : object) (key value_ : jsstring) : object :=
  if negb (HasProperty result key) then Put result key (Str value_)
  else match Get result key with
       | Arr elems => Put result key (Arr (elems ++ [Str value_]))
       | first => Put result key (Arr [first; Str value_])
       end.

Fixpoint forEach_chunk (chunks : list jsstring) (result : object)
  : completion object :=
  match chunks with
  | [] => Return result
  | chunk :: rest =>
      let pair := split 61 chunk in
      match unescape (hd [] pair) with
      | Throw e => Throw e
      | Return key =>
          match unescape (join (js "=") (tl pair)) with
          | Throw e => Throw e
          | Return value_ => forEach_chunk rest (store result key value_)
          end
      end
  end.

Definition parse (query_ : jsstring) : completion (option object) :=
  let result : object := [] in
  if strlen query_ =? 0 then Return (Some result)
  else match forEach_chunk (split 38 query_) result with
       | Return result' => Return (Some result')
       | Throw e => Throw e
       end.

End querystring.

(** ** lib/bpUtil.js *)

(** An [nsIURI] as far as the module reads it. *)
Record nsIURI := { uri_host : jsstring; uri_path : jsstring }.

(** [searchMap] (lines 51-57): the object the module binds at load time.  The
    properties [path] and [query] of an entry are the fields of
    [ProviderEntry]. *)
Definition searchMap : list (jsstring * ProviderEntry) :=
  [ (js "amazon",
     {| provider_path := js "/exec/obidos/external-search?";
        provider_query := js "field-keywords" |});
    (js "bing", {| provider_path := js "/search?"; provider_query := js "q" |});
    (js "google", {| provider_path := js "/search?"; provider_query := js "q" |});
    (js "yahoo", {| provider_path := js "/search?"; provider_query := js "p" |}) ].

(** The module right after it is loaded. *)
Definition loaded : ModuleState := {| st_searchMap := searchMap; console := [] |}.

(** What [searchMap[name]] evaluates to: an entry of the map, a member
    inherited from [Object.prototype], or [undefined]. *)
Inductive found :=
| Entry (e : ProviderEntry)
| Member (name : jsstring)
| Nothing.

Definition lookup (map_ : list (jsstring * ProviderEntry)) (name : jsstring) : found :=
  match own map_ name with
  | Some e => Entry e
  | None => if inherited name then Member name else Nothing
  end.

(** ToBoolean of the looked-up value: objects and functions are true,
    [undefined] is false. *)
Definition found_truthy (f : found) : bool :=
  match f with
  | Entry _ | Member _ => true
  | Nothing => false
  end.

(** [f.path] and [f.query]: the entry's strings; the inherited members have
    neither property. *)
Definition found_path (f : found) : value :=
  match f with
  | Entry e => Str (provider_path e)
  | _ => Undefined
  end.

Definition found_query (f : found) : value :=
  match f with
  | Entry e => Str (provider_query e)
  | _ => Undefined
  end.

(** [v.length] for the value of a [path] property: a string's length; reading
    a property of [undefined] throws. *)
Definition path_length (v : value) : completion Z :=
  match v with
  | Str s => Return (strlen s)
  | _ => Throw TypeError
  end.

(** [toHexString] of [getHash] (lines 110-112): the number in base 16 after a
    zero, of which the last two characters are kept. *)
Definition toHexString (charCode : N) : jsstring :=
  slice (js "0" ++ toString16 charCode) (-2) None.

(** [getHash] (lines 98-115): the SHA-256 digest of the string's UTF-8
    octets, [toHexString] of every character of the digest joined without a
    separator, cut to 48 characters. *)
Definition getHash (aString : jsstring) : jsstring :=
  let data := convertToByteArray aString in
  let hash := cryptoHash_finish data in
  let hashStr := join [] (map toHexString hash) in
  slice hashStr 0 (Some 48).

(** A stand-in for the effective-TLD service, for running the module: the
    public suffix is the last label, the base domain the last two; a host
    without a dot has no base domain. *)
Module StubTLD.

Definition labels (h : jsstring) : list jsstring := split 46 h.

Definition getPublicSuffix (aURI : nsIURI) : completion jsstring :=
  Return (last (labels (uri_host aURI)) []).

Definition getBaseDomainFromHost (aHost : jsstring) : completion jsstring :=
  match rev (labels aHost) with
  | tld :: name :: _ => Return (name ++ js "." ++ tld)
  | _ => Throw (NSError (js "NS_ERROR_INSUFFICIENT_DOMAIN_LEVELS"))
  end.

End StubTLD.

Section bpUtil.

(** The effective-TLD service of the platform: either call returns a string or
    throws. *)
Variable eTLDService_getBaseDomainFromHost : jsstring -> completion jsstring.
Variable eTLDService_getPublicSuffix : nsIURI -> completion jsstring.

(** [parse] of the [querystring] module the add-on is built with: it returns
    the object it parsed the query into ([Some]), or a value that is false as
    a condition ([None]), or it throws. *)
Variable querystring_parse : jsstring -> completion (option object).

(** The engine's lowercasing of a string that is not plain ASCII. *)
Variable unicode_toLowerCase : jsstring -> jsstring.

Definition lower (c : N) : N :=
  if (65 <=? c)%N && (c <=? 90)%N then (c + 32)%N else c.

(** [s.toLowerCase()]: on ASCII text the letters A to Z move to a to z. *)
Definition toLowerCase (s : jsstring) : jsstring :=
  if forallb (fun c => (c <? 128)%N) s then map lower s
  else unicode_toLowerCase s.

(** [getBaseDomainFromHost] (lines 20-28): [etld] starts as the host; the
    service's answer replaces it unless the call throws, in which case the
    handler logs and [etld] is returned as it was. *)
Definition getBaseDomainFromHost (aHost : jsstring) : M jsstring :=
  let etld := aHost in
  try_catch
    (call (eTLDService_getBaseDomainFromHost aHost))
    (fun e =>
       console_log [js "eTLDService error getting tld from"; aHost] ;;;
       ret etld).

(** [getPublicSuffix] (lines 36-44), the same shape with [aURI.host] as the
    fallback. *)
Definition getPublicSuffix (aURI : nsIURI) : M jsstring :=
  let suffix := uri_host aURI in
  try_catch
    (call (eTLDService_getPublicSuffix aURI))
    (fun e =>
       console_log [js "eTLDService error: " ++ exn_toString e] ;;;
       ret suffix).

(** [getSearchTermFromURI] (lines 64-90), statement by statement.  The test
    [!searchMap[searchProvider]] is [found_truthy]; [.path] of what was found
    is a string for an entry and [undefined] otherwise, so [indexOf] converts
    it with ToString and [.path.length] throws for [undefined]; the test [!q]
    is the [None] case of what the parser handed back. *)
Definition getSearchTermFromURI (aURI : nsIURI) : M jsstring :=
  host <- getBaseDomainFromHost (uri_host aURI) ;;
  publicSuffix <- getPublicSuffix aURI ;;
  if indexOf host publicSuffix =? -1 then ret (js "")
  else
    let searchProvider :=
      substr host 0 (Some (strlen host - strlen publicSuffix - 1)) in
    searchMap_ <- read_searchMap ;;
    let entry := lookup searchMap_ searchProvider in
    if negb (found_truthy entry) then ret (js "")
    else
      let path := uri_path aURI in
      if negb (indexOf path (ToString (found_path entry)) =? 0) then ret (js "")
      else
        prefix_length <- call (path_length (found_path entry)) ;;
        let q := substr path prefix_length None in
        q <- call (querystring_parse q) ;;
        match q with
        | None =>
            console_log [js "Couldn't parse"; path] ;;;
            ret (js "")
        | Some q =>
            decoded_ <- call (decodeURI (Get q (ToString (found_query entry)))) ;;
            ret (replace (toLowerCase decoded_) (js "+") (js " "))
        end.

(** [getKeyForHost] (lines 117-119) and [getKeyForQuery] (lines 121-123). *)
Definition getKeyForHost (aHost : jsstring) : M jsstring :=
  base <- getBaseDomainFromHost aHost ;;
  ret (getHash base).

Definition getKeyForQuery (aQuery : jsstring) : M jsstring :=
  ret (getHash aQuery).

(** ** What the specification speaks of *)

(** [p] occurs somewhere in [s]. *)
Definition occurs_in (p s : jsstring) : Prop :=
  exists before after, s = before ++ p ++ after.

(** [s] begins with [p]. *)
Definition begins_with (s p : jsstring) : Prop :=
  exists rest, s = p ++ rest.

(** A lowercase hexadecimal digit: 0 to 9 or a to f. *)
Definition is_lower_hex (c : N) : bool :=
  ((48 <=? c)%N && (c <=? 57)%N) || ((97 <=? c)%N && (c <=? 102)%N).

(** A key: exactly 48 lowercase hexadecimal characters. *)
Definition is_key (s : jsstring) : bool :=
  Nat.eqb (List.length s) 48 && forallb is_lower_hex s.

(** The number two hexadecimal digits denote. *)
Definition hex_pair_value (t : jsstring) : option N :=
  match t with
  | [h1; h2] =>
      match hexval h1, hexval h2 with
      | Some a, Some b => Some (16 * a + b)%N
      | _, _ => None
      end
  | _ => None
  end.

(** The octets a text of hexadecimal digits denotes, two digits an octet;
    [None] when the digits do not pair up or a character is no digit. *)
Fixpoint hex_octets (s : jsstring) : option (list N) :=
  match s with
  | [] => Some []
  | h1 :: h2 :: rest =>
      match hex_pair_value [h1; h2], hex_octets rest with
      | Some b, Some bs => Some (b :: bs)
      | _, _ => None
      end
  | _ => None
  end.

(** The last code unit of a string is [c]. *)
Definition ends_in (s : jsstring) (c : N) : bool :=
  match rev s with
  | d :: _ => N.eqb d c
  | [] => false
  end.

(** One parameter name: not empty, and free of the separators of a query
    string, the ampersand and the equals sign. *)
Definition single_parameter_name (s : jsstring) : bool :=
  negb (jsstring_eqb s [])
  && forallb (fun c => negb (N.eqb c 38) && negb (N.eqb c 61)) s.

(** The invariant of a provider entry: the path starts with a slash and ends
    with a question mark, and the query is one parameter name. *)
Definition wellformed_entry (e : ProviderEntry) : bool :=
  startsWith (provider_path e) (js "/")
  && ends_in (provider_path e) 63
  && single_parameter_name (provider_query e).

(** The console message of the parse-failure branch. *)
Definition parse_failure_message (args : list jsstring) : Prop :=
  hd [] args = js "Couldn't parse".

(** The number a text of hexadecimal digits denotes, the most significant
    digit first; [None] when a character is no digit. *)
Definition hex_number (s : jsstring) : option N :=
  fold_left
    (fun acc c =>
       match acc, hexval c with
       | Some a, Some d => Some (16 * a + d)%N
       | _, _ => None
       end)
    s (Some 0%N).

(** An uppercase ASCII letter, A to Z. *)
Definition is_upper (c : N) : bool := (65 <=? c)%N && (c <=? 90)%N.

(** ** Strings: the facts the module rests on *)

Lemma jsstring_eqb_eq (a b : jsstring) : jsstring_eqb a b = true <-> a = b.
Proof.
  unfold jsstring_eqb. destruct (list_eq_dec N.eq_dec a b); split; congruence.
Qed.

Lemma jsstring_eqb_refl (a : jsstring) : jsstring_eqb a a = true.
Proof. now apply jsstring_eqb_eq. Qed.

Lemma startsWith_begins (s p : jsstring) :
  startsWith s p = true <-> begins_with s p.
Proof.
  unfold begins_with. revert s.
  induction p as [|c p IH]; intros s; simpl.
  - split; [intros _; now exists s | intros _; now destruct s].
  - destruct s as [|d s]; simpl.
    + split; [discriminate | intros [rest H]; discriminate].
    + rewrite andb_true_iff, N.eqb_eq, IH. split.
      * intros [-> [rest ->]]. now exists rest.
      * intros [rest H]. injection H as -> ->. split; [reflexivity | now exists rest].
Qed.

Lemma indexOf_eq (s p : jsstring) :
  indexOf s p =
  if startsWith s p then 0
  else match s with
       | [] => -1
       | _ :: t => if indexOf t p =? -1 then -1 else indexOf t p + 1
       end.
Proof. destruct s; reflexivity. Qed.

Lemma indexOf_lower_bound (s p : jsstring) : -1 <= indexOf s p.
Proof.
  induction s as [|c s IH]; rewrite indexOf_eq;
    destruct (startsWith _ p); try lia.
  destruct (indexOf s p =? -1); lia.
Qed.

(** [indexOf] answers 0 exactly when the string begins with the pattern. *)
Lemma indexOf_zero (s p : jsstring) : indexOf s p = 0 <-> begins_with s p.
Proof.
  rewrite <- startsWith_begins, indexOf_eq.
  destruct (startsWith s p); [split; reflexivity|].
  destruct s as [|c s]; [split; discriminate|].
  pose proof (indexOf_lower_bound s p).
  destruct (indexOf s p =? -1) eqn:E; split; try discriminate; lia.
Qed.

(** [indexOf] answers -1 exactly when the pattern occurs nowhere. *)
Lemma indexOf_absent (s p : jsstring) : indexOf s p = -1 <-> ~ occurs_in p s.
Proof.
  unfold occurs_in.
  induction s as [|c s IH]; rewrite indexOf_eq;
    destruct (startsWith _ p) eqn:E.
  - split; [discriminate|]. intros H. exfalso. apply H.
    apply startsWith_begins in E. destruct E as [rest E].
    exists [], rest. exact E.
  - split; [|reflexivity]. intros _ [before [after H]].
    destruct before; [|discriminate]. simpl in H.
    assert (startsWith [] p = true) by (apply startsWith_begins; now exists after).
    congruence.
  - split; [discriminate|]. intros H. exfalso. apply H.
    apply startsWith_begins in E. destruct E as [rest E].
    exists [], rest. exact E.
  - pose proof (indexOf_lower_bound s p).
    destruct (indexOf s p =? -1) eqn:K.
    + apply Z.eqb_eq in K. split; [|reflexivity].
      intros _ [before [after H']].
      destruct before as [|b before]; simpl in H'.
      * assert (startsWith (c :: s) p = true)
          by (apply startsWith_begins; now exists after).
        congruence.
      * injection H' as _ H'. apply IH in K. apply K. now exists before, after.
    + apply Z.eqb_neq in K. split; [lia|]. intros H'. exfalso.
      apply K, IH. intros [before [after ->]]. apply H'.
      now exists (c :: before), after.
Qed.

Lemma strlen_nonneg (s : jsstring) : 0 <= strlen s.
Proof. unfold strlen. lia. Qed.

(** A negative length asks [substr] for nothing. *)
Lemma substr_negative_length (s : jsstring) (start l : Z) :
  l <= 0 -> substr s start (Some l) = [].
Proof.
  intros H. unfold substr.
  destruct (Z.min (Z.max l 0) _ <=? 0) eqn:E; [reflexivity|].
  apply Z.leb_gt in E. lia.
Qed.

(** [substr] from the length of a prefix on gives what follows the prefix. *)
Lemma substr_after_prefix (p rest : jsstring) :
  substr (p ++ rest) (strlen p) None = rest.
Proof.
  unfold substr, strlen.
  destruct (Z.of_nat (List.length p) <? 0) eqn:E; [apply Z.ltb_lt in E; lia|].
  rewrite length_app, Nat2Z.id, skipn_app, skipn_all, Nat.sub_diag. simpl.
  destruct (_ <=? 0) eqn:L.
  - apply Z.leb_le in L. destruct rest; [reflexivity|]. simpl in L. lia.
  - replace (Z.to_nat _) with (List.length rest) by lia. apply firstn_all.
Qed.

(** ** The resolvers *)

Lemma getBaseDomainFromHost_run (aHost : jsstring) (st : ModuleState) :
  getBaseDomainFromHost aHost st =
  match eTLDService_getBaseDomainFromHost aHost with
  | Return d => (Return d, st)
  | Throw _ =>
      (Return aHost, logged [js "eTLDService error getting tld from"; aHost] st)
  end.
Proof.
  unfold getBaseDomainFromHost, try_catch, call, bind, console_log, ret, logged.
  destruct (eTLDService_getBaseDomainFromHost aHost); reflexivity.
Qed.

Lemma getPublicSuffix_run (aURI : nsIURI) (st : ModuleState) :
  getPublicSuffix aURI st =
  match eTLDService_getPublicSuffix aURI with
  | Return s => (Return s, st)
  | Throw e =>
      (Return (uri_host aURI), logged [js "eTLDService error: " ++ exn_toString e] st)
  end.
Proof.
  unfold getPublicSuffix, try_catch, call, bind, console_log, ret, logged.
  destruct (eTLDService_getPublicSuffix aURI); reflexivity.
Qed.

(** What a resolver returns does not depend on the state it runs in, it
    leaves [searchMap] alone, and what it logs is no parse-failure message. *)
Lemma getBaseDomainFromHost_returns (aHost : jsstring) (st : ModuleState) :
  exists v new,
    getBaseDomainFromHost aHost st
    = (Return v, {| st_searchMap := st_searchMap st; console := console st ++ new |})
    /\ (forall st0, fst (getBaseDomainFromHost aHost st0) = Return v)
    /\ Forall (fun args => ~ parse_failure_message args) new.
Proof.
  destruct (eTLDService_getBaseDomainFromHost aHost) as [d|e] eqn:E.
  - exists d, []. repeat split.
    + rewrite getBaseDomainFromHost_run, E, app_nil_r. now destruct st.
    + intros st0. now rewrite getBaseDomainFromHost_run, E.
    + constructor.
  - exists aHost, [[js "eTLDService error getting tld from"; aHost]]. repeat split.
    + now rewrite getBaseDomainFromHost_run, E.
    + intros st0. now rewrite getBaseDomainFromHost_run, E.
    + repeat constructor. unfold parse_failure_message. simpl. discriminate.
Qed.

Lemma getPublicSuffix_returns (aURI : nsIURI) (st : ModuleState) :
  exists v new,
    getPublicSuffix aURI st
    = (Return v, {| st_searchMap := st_searchMap st; console := console st ++ new |})
    /\ (forall st0, fst (getPublicSuffix aURI st0) = Return v)
    /\ Forall (fun args => ~ parse_failure_message args) new.
Proof.
  destruct (eTLDService_getPublicSuffix aURI) as [d|e] eqn:E.
  - exists d, []. repeat split.
    + rewrite getPublicSuffix_run, E, app_nil_r. now destruct st.
    + intros st0. now rewrite getPublicSuffix_run, E.
    + constructor.
  - exists (uri_host aURI), [[js "eTLDService error: " ++ exn_toString e]].
    repeat split.
    + now rewrite getPublicSuffix_run, E.
    + intros st0. now rewrite getPublicSuffix_run, E.
    + repeat constructor. unfold parse_failure_message. simpl. discriminate.
Qed.

(** The first two statements of [getSearchTermFromURI] always complete: the
    call continues with the two resolved strings, the map untouched. *)
Lemma getSearchTermFromURI_resolved (aURI : nsIURI) (st : ModuleState) :
  exists host publicSuffix new,
    fst (getBaseDomainFromHost (uri_host aURI) st) = Return host
    /\ fst (getPublicSuffix aURI st) = Return publicSuffix
    /\ Forall (fun args => ~ parse_failure_message args) new
    /\ getSearchTermFromURI aURI st =
       (if indexOf host publicSuffix =? -1 then ret (js "")
        else
          let searchProvider :=
            substr host 0 (Some (strlen host - strlen publicSuffix - 1)) in
          searchMap_ <- read_searchMap ;;
          let entry := lookup searchMap_ searchProvider in
          if negb (found_truthy entry) then ret (js "")
          else
            let path := uri_path aURI in
            if negb (indexOf path (ToString (found_path entry)) =? 0)
            then ret (js "")
            else
              prefix_length <- call (path_length (found_path entry)) ;;
              let q := substr path prefix_length None in
              q <- call (querystring_parse q) ;;
              match q with
              | None =>
                  console_log [js "Couldn't parse"; path] ;;;
                  ret (js "")
              | Some q =>
                  decoded_ <-
                    call (decodeURI (Get q (ToString (found_query entry)))) ;;
                  ret (replace (toLowerCase decoded_) (js "+") (js " "))
              end)
         {| st_searchMap := st_searchMap st; console := console st ++ new |}.
Proof.
  destruct (getBaseDomainFromHost_returns (uri_host aURI) st)
    as (host & new1 & R1 & I1 & F1).
  set (st1 := {| st_searchMap := st_searchMap st; console := console st ++ new1 |}) in *.
  destruct (getPublicSuffix_returns aURI st1) as (sfx & new2 & R2 & I2 & F2).
  exists host, sfx, (new1 ++ new2). repeat split.
  - apply I1.
  - apply I2.
  - apply Forall_app. now split.
  - unfold getSearchTermFromURI at 1. unfold bind at 1. rewrite R1.
    unfold bind at 1. rewrite R2. subst st1. simpl. now rewrite app_assoc.
Qed.

(** ** The properties of the specification *)

(** C2. For every string and every URI, [getBaseDomainFromHost] and
    [getPublicSuffix] complete with a value, whatever the effective-TLD
    service does: its answer when it gives one, and the input unchanged (the
    host, respectively [uri.host]) when it throws.  No exception reaches the
    caller. *)
Theorem resolvers_never_raise
    (aHost : jsstring) (aURI : nsIURI) (st : ModuleState) :
  (exists v st',
      getBaseDomainFromHost aHost st = (Return v, st')
      /\ (forall e, eTLDService_getBaseDomainFromHost aHost = Throw e -> v = aHost)
      /\ (forall d, eTLDService_getBaseDomainFromHost aHost = Return d -> v = d))
  /\ (exists v st',
      getPublicSuffix aURI st = (Return v, st')
      /\ (forall e, eTLDService_getPublicSuffix aURI = Throw e -> v = uri_host aURI)
      /\ (forall d, eTLDService_getPublicSuffix aURI = Return d -> v = d)).
Proof.
  split.
  - rewrite getBaseDomainFromHost_run.
    destruct (eTLDService_getBaseDomainFromHost aHost) as [d|e];
      eexists; eexists; (split; [reflexivity|]); split; congruence.
  - rewrite getPublicSuffix_run.
    destruct (eTLDService_getPublicSuffix aURI) as [d|e];
      eexists; eexists; (split; [reflexivity|]); split; congruence.
Qed.

(** C5. When the resolved public suffix occurs nowhere in the resolved base
    domain, [getSearchTermFromURI] returns the empty string. *)
Theorem searchTerm_suffix_not_in_host
    (aURI : nsIURI) (st : ModuleState) (host publicSuffix : jsstring) :
  fst (getBaseDomainFromHost (uri_host aURI) st) = Return host ->
  fst (getPublicSuffix aURI st) = Return publicSuffix ->
  ~ occurs_in publicSuffix host ->
  fst (getSearchTermFromURI aURI st) = Return (js "").
Proof.
  intros Hh Hs Hno.
  destruct (getSearchTermFromURI_resolved aURI st) as (h & s & new & Eh & Es & _ & ->).
  rewrite Eh in Hh. rewrite Es in Hs. injection Hh as ->. injection Hs as ->.
  apply indexOf_absent in Hno. rewrite Hno. reflexivity.
Qed.

(** C6. When the resolved base domain equals the resolved public suffix, the
    provider name cut from it is the empty string, [searchMap] has nothing
    under that name, and [getSearchTermFromURI] returns the empty string. *)
Theorem searchTerm_host_equals_suffix
    (aURI : nsIURI) (st : ModuleState) (host : jsstring) :
  st_searchMap st = searchMap ->
  fst (getBaseDomainFromHost (uri_host aURI) st) = Return host ->
  fst (getPublicSuffix aURI st) = Return host ->
  substr host 0 (Some (strlen host - strlen host - 1)) = js ""
  /\ lookup (st_searchMap st) (js "") = Nothing
  /\ fst (getSearchTermFromURI aURI st) = Return (js "").
Proof.
  intros Hmap Hh Hs.
  assert (Hname : substr host 0 (Some (strlen host - strlen host - 1)) = js "")
    by (apply substr_negative_length; lia).
  assert (Hlook : lookup (st_searchMap st) (js "") = Nothing)
    by (rewrite Hmap; reflexivity).
  repeat split; trivial.
  destruct (getSearchTermFromURI_resolved aURI st) as (h & s & new & Eh & Es & _ & ->).
  rewrite Eh in Hh. rewrite Es in Hs. injection Hh as ->. injection Hs as ->.
  destruct (indexOf host host =? -1); [reflexivity|].
  cbv zeta. unfold bind, read_searchMap. cbv beta iota.
  cbn [st_searchMap]. rewrite Hname, Hlook. reflexivity.
Qed.

(** C7. When the provider name cut from the resolved host is an entry of
    [searchMap] and the URI's path does not begin with that entry's path,
    [getSearchTermFromURI] returns the empty string. *)
Theorem searchTerm_prefix_mismatch
    (aURI : nsIURI) (st : ModuleState) (host publicSuffix : jsstring)
    (e : ProviderEntry) :
  fst (getBaseDomainFromHost (uri_host aURI) st) = Return host ->
  fst (getPublicSuffix aURI st) = Return publicSuffix ->
  own (st_searchMap st)
      (substr host 0 (Some (strlen host - strlen publicSuffix - 1))) = Some e ->
  ~ begins_with (uri_path aURI) (provider_path e) ->
  fst (getSearchTermFromURI aURI st) = Return (js "").
Proof.
  intros Hh Hs Hown Hno.
  destruct (getSearchTermFromURI_resolved aURI st) as (h & s & new & Eh & Es & _ & ->).
  rewrite Eh in Hh. rewrite Es in Hs. injection Hh as ->. injection Hs as ->.
  destruct (indexOf host publicSuffix =? -1); [reflexivity|].
  cbv zeta. unfold bind, read_searchMap. cbv beta iota.
  cbn [st_searchMap]. unfold lookup. rewrite Hown.
  cbn [found_truthy negb found_path ToString].
  destruct (indexOf (uri_path aURI) (provider_path e) =? 0) eqn:K.
  - apply Z.eqb_eq, indexOf_zero in K. contradiction.
  - reflexivity.
Qed.

(** *** The tail of [getSearchTermFromURI] *)

(** After the two resolvers the function reads, and logs in one place only:
    the parse-failure branch.  With a parser that never hands back a false
    value the state at the end is the one the resolvers left. *)
Lemma getSearchTermFromURI_state (aURI : nsIURI) (st : ModuleState) :
  exists new,
    snd (getSearchTermFromURI aURI st)
    = {| st_searchMap := st_searchMap st; console := console st ++ new |}
    /\ ((forall s, querystring_parse s <> Return None) ->
        Forall (fun args => ~ parse_failure_message args) new).
Proof.
  destruct (getSearchTermFromURI_resolved aURI st) as (h & s & new & _ & _ & F & ->).
  assert (same : exists new',
             {| st_searchMap := st_searchMap st; console := console st ++ new |}
             = {| st_searchMap := st_searchMap st; console := console st ++ new' |}
             /\ ((forall s, querystring_parse s <> Return None) ->
                 Forall (fun args => ~ parse_failure_message args) new'))
    by (exists new; split; [reflexivity | intros _; exact F]).
  destruct (indexOf h s =? -1); [exact same|].
  cbv zeta. unfold bind, read_searchMap, call, ret. cbv beta iota.
  destruct (negb (found_truthy _)); [exact same|].
  destruct (negb (indexOf _ _ =? 0)); [exact same|].
  destruct (path_length _); [|exact same].
  destruct (querystring_parse _) as [[q|]|] eqn:P; [| |exact same].
  - destruct (decodeURI _); exact same.
  - exists (new ++ [[js "Couldn't parse"; uri_path aURI]]). split.
    + unfold console_log, logged. cbn [snd st_searchMap console].
      now rewrite app_assoc.
    + intros never. now apply never in P.
Qed.

(** C10. The parse-failure branch of [getSearchTermFromURI] is never taken
    with a parser that, like the [querystring] module, hands back an object
    for every string it parses: the condition of the guard is then false
    whenever it is reached, so for every URI and every state the messages the
    call adds to the console never include the parse-failure message, and
    what the call returns is returned by another path. *)
Theorem parse_failure_branch_unreachable (aURI : nsIURI) (st : ModuleState) :
  (forall s, querystring_parse s <> Return None) ->
  exists new,
    console (snd (getSearchTermFromURI aURI st)) = console st ++ new
    /\ Forall (fun args => ~ parse_failure_message args) new.
Proof.
  intros never.
  destruct (getSearchTermFromURI_state aURI st) as (new & -> & F).
  exists new. split; [reflexivity | now apply F].
Qed.

(** *** A missing parameter *)

(** C1 as the code has it.  For a URI whose provider is an entry of
    [searchMap] and whose path begins with the entry's path, when the parsed
    query has no property of the entry's parameter name the function does not
    return the empty string: [decodeURI(undefined)] is the nine characters
    of the word undefined, and that is the result. *)
Theorem searchTerm_missing_param_is_undefined
    (aURI : nsIURI) (st : ModuleState) (host publicSuffix : jsstring)
    (e : ProviderEntry) (q : object) :
  st_searchMap st = searchMap ->
  fst (getBaseDomainFromHost (uri_host aURI) st) = Return host ->
  fst (getPublicSuffix aURI st) = Return publicSuffix ->
  occurs_in publicSuffix host ->
  own searchMap
      (substr host 0 (Some (strlen host - strlen publicSuffix - 1))) = Some e ->
  begins_with (uri_path aURI) (provider_path e) ->
  querystring_parse (substr (uri_path aURI) (strlen (provider_path e)) None)
  = Return (Some q) ->
  HasProperty q (provider_query e) = false ->
  fst (getSearchTermFromURI aURI st) = Return (js "undefined")
  /\ js "undefined" <> js "".
Proof.
  intros Hmap Hh Hs Hocc Hown Hpre Hparse Hno.
  split; [|discriminate].
  destruct (getSearchTermFromURI_resolved aURI st) as (h & s & new & Eh & Es & _ & ->).
  rewrite Eh in Hh. rewrite Es in Hs. injection Hh as ->. injection Hs as ->.
  destruct (indexOf host publicSuffix =? -1) eqn:K.
  { apply Z.eqb_eq, indexOf_absent in K. contradiction. }
  cbv zeta. unfold bind, read_searchMap, call, ret. cbv beta iota.
  cbn [st_searchMap]. unfold lookup. rewrite Hmap, Hown.
  cbn [found_truthy negb found_path found_query ToString path_length].
  apply indexOf_zero in Hpre. rewrite Hpre. cbn [Z.eqb negb].
  rewrite Hparse. cbv beta iota.
  unfold HasProperty in Hno. unfold Get.
  destruct (own q (provider_query e)); [discriminate|]. rewrite Hno.
  reflexivity.
Qed.

(** *** Normalisation of the value *)

Lemma startsWith_nil (s : jsstring) : startsWith s [] = true.
Proof. now destruct s. Qed.

Lemma indexOf_char_absent (s : jsstring) (c : N) :
  ~ In c s -> indexOf s [c] = -1.
Proof.
  intros H. apply indexOf_absent. intros (before & after & ->).
  apply H, in_or_app. right. now left.
Qed.

Lemma indexOf_char_first (before after : jsstring) (c : N) :
  ~ In c before -> indexOf (before ++ c :: after) [c] = Z.of_nat (List.length before).
Proof.
  induction before as [|b before IH]; intros H; rewrite indexOf_eq.
  - cbn [app startsWith]. now rewrite N.eqb_refl, startsWith_nil.
  - assert (b <> c) by (intros ->; apply H; now left).
    assert (~ In c before) by (intros I; apply H; now right).
    cbn [app startsWith]. replace (c =? b)%N with false
      by (symmetry; apply N.eqb_neq; congruence).
    cbn [andb]. rewrite IH by assumption.
    destruct (Z.of_nat (List.length before) =? -1) eqn:E.
    + apply Z.eqb_eq in E. lia.
    + cbn [List.length]. lia.
Qed.

(** [replace] with a one-character pattern rewrites the first occurrence and
    nothing after it. *)
Lemma replace_first_char (before after : jsstring) (c d : N) :
  ~ In c before ->
  replace (before ++ c :: after) [c] [d] = before ++ d :: after.
Proof.
  intros H. unfold replace. rewrite indexOf_char_first by assumption.
  destruct (Z.of_nat (List.length before) =? -1) eqn:E.
  - apply Z.eqb_eq in E. lia.
  - rewrite Nat2Z.id, firstn_app, firstn_all, Nat.sub_diag. cbn [firstn].
    rewrite app_nil_r. f_equal. cbn [List.length app].
    rewrite skipn_app, skipn_all2 by lia.
    replace (List.length before + 1 - List.length before)%nat with 1%nat by lia.
    reflexivity.
Qed.

Lemma replace_char_absent (s : jsstring) (c d : N) :
  ~ In c s -> replace s [c] [d] = s.
Proof.
  intros H. unfold replace. now rewrite indexOf_char_absent.
Qed.

(** C4. When the query holds a value under the provider's parameter name,
    [getSearchTermFromURI] URI-decodes it (and throws what [decodeURI]
    throws), lowercases the result and replaces the first plus sign with a
    space: a string without a plus sign stays as it is, and in a string with
    several only the first one changes. *)
Theorem searchTerm_normalizes_value
    (aURI : nsIURI) (st : ModuleState) (host publicSuffix : jsstring)
    (e : ProviderEntry) (q : object) (v : value) :
  st_searchMap st = searchMap ->
  fst (getBaseDomainFromHost (uri_host aURI) st) = Return host ->
  fst (getPublicSuffix aURI st) = Return publicSuffix ->
  occurs_in publicSuffix host ->
  own searchMap
      (substr host 0 (Some (strlen host - strlen publicSuffix - 1))) = Some e ->
  begins_with (uri_path aURI) (provider_path e) ->
  querystring_parse (substr (uri_path aURI) (strlen (provider_path e)) None)
  = Return (Some q) ->
  own q (provider_query e) = Some v ->
  fst (getSearchTermFromURI aURI st)
  = match decodeURI v with
    | Return d => Return (replace (toLowerCase d) (js "+") (js " "))
    | Throw x => Throw x
    end
  /\ (forall s, ~ In 43%N s -> replace s (js "+") (js " ") = s)
  /\ (forall before after,
        ~ In 43%N before ->
        replace (before ++ js "+" ++ after) (js "+") (js " ")
        = before ++ js " " ++ after).
Proof.
  intros Hmap Hh Hs Hocc Hown Hpre Hparse Hv.
  split; [|split].
  - destruct (getSearchTermFromURI_resolved aURI st)
      as (h & s & new & Eh & Es & _ & ->).
    rewrite Eh in Hh. rewrite Es in Hs. injection Hh as ->. injection Hs as ->.
    destruct (indexOf host publicSuffix =? -1) eqn:K.
    { apply Z.eqb_eq, indexOf_absent in K. contradiction. }
    cbv zeta. unfold bind, read_searchMap, call, ret. cbv beta iota.
    cbn [st_searchMap]. unfold lookup. rewrite Hmap, Hown.
    cbn [found_truthy negb found_path found_query ToString path_length].
    apply indexOf_zero in Hpre. rewrite Hpre. cbn [Z.eqb negb].
    rewrite Hparse. cbv beta iota.
    unfold Get. rewrite Hv.
    destruct (decodeURI v); reflexivity.
  - intros s H. now apply replace_char_absent.
  - intros before after H. now apply replace_first_char.
Qed.

(** *** Keys *)

Lemma octet_bound (x : N) : (N.land x 255 < 256)%N.
Proof.
  change 255%N with (N.ones 8). rewrite N.land_ones.
  apply N.mod_upper_bound. discriminate.
Qed.

(** The digest of any message is 32 octets. *)
Lemma digest_octets (msg : list N) :
  List.length (SHA256.digest msg) = 32%nat
  /\ Forall (fun b => (b < 256)%N) (SHA256.digest msg).
Proof.
  unfold SHA256.digest.
  set (h := SHA256.blocks _ _ _). clearbody h.
  split; [reflexivity|].
  cbn [flat_map SHA256.word_octets app].
  repeat (constructor; [apply octet_bound|]). constructor.
Qed.

(** [toHexString] of an octet is two lowercase hexadecimal digits, and they
    denote the octet; checked on each of the 256 octets. *)
Lemma toHexString_octet (b : N) :
  (b < 256)%N ->
  List.length (toHexString b) = 2%nat
  /\ forallb is_lower_hex (toHexString b) = true
  /\ hex_pair_value (toHexString b) = Some b.
Proof.
  intros H.
  assert (all :
    forallb (fun n => let t := toHexString (N.of_nat n) in
                      Nat.eqb (List.length t) 2 && forallb is_lower_hex t
                      && match hex_pair_value t with
                         | Some v => N.eqb v (N.of_nat n)
                         | None => false
                         end)
            (seq 0 256) = true) by (vm_compute; reflexivity).
  rewrite forallb_forall in all.
  specialize (all (N.to_nat b)).
  rewrite N2Nat.id in all. cbv zeta in all.
  rewrite !andb_true_iff in all.
  destruct all as [[L F] V]; [apply in_seq; lia|].
  apply Nat.eqb_eq in L. repeat split; trivial.
  destruct (hex_pair_value (toHexString b)); [|discriminate].
  apply N.eqb_eq in V. now subst.
Qed.

(** Cutting a text of two-character pieces after [2 * k] characters keeps the
    first [k] pieces. *)
Lemma firstn_concat_pairs (parts : list jsstring) (k : nat) :
  Forall (fun p => List.length p = 2%nat) parts ->
  firstn (2 * k) (List.concat parts) = List.concat (firstn k parts).
Proof.
  intros H. revert k.
  induction H as [|p parts Hp _ IH]; intros [|k]; try reflexivity.
  replace (2 * S k)%nat with (List.length p + 2 * k)%nat by lia.
  cbn [firstn List.concat]. now rewrite firstn_app_2, IH.
Qed.

Lemma join_empty_separator (parts : list jsstring) :
  join [] parts = List.concat parts.
Proof.
  induction parts as [|p [|p' rest] IH]; cbn [join List.concat] in *.
  - reflexivity.
  - now rewrite app_nil_r.
  - now rewrite IH.
Qed.

Lemma hex_of_octets (l : jsstring) :
  Forall (fun b => (b < 256)%N) l ->
  List.length (join [] (map toHexString l)) = (2 * List.length l)%nat
  /\ forallb is_lower_hex (join [] (map toHexString l)) = true.
Proof.
  rewrite join_empty_separator.
  induction 1 as [|b l Hb _ [IHn IHh]]; [now split|].
  destruct (toHexString_octet b Hb) as (L & F & _).
  cbn [map List.concat List.length]. rewrite length_app, forallb_app, L, F, IHn, IHh.
  split; [lia | reflexivity].
Qed.

Lemma slice_first (s : jsstring) (n : nat) :
  (n <= List.length s)%nat -> slice s 0 (Some (Z.of_nat n)) = firstn n s.
Proof.
  intros H. unfold slice, strlen. cbn [Z.ltb Z.compare].
  destruct (Z.of_nat n <? 0) eqn:E; [apply Z.ltb_lt in E; lia|].
  rewrite (Z.min_l 0), (Z.min_l (Z.of_nat n)) by lia.
  rewrite Z.sub_0_r, Z.max_l by lia. now rewrite Nat2Z.id.
Qed.

Lemma forallb_firstn {A} (f : A -> bool) (n : nat) (l : list A) :
  forallb f l = true -> forallb f (firstn n l) = true.
Proof.
  revert n. induction l as [|a l IH]; intros [|n] H; try reflexivity.
  cbn in *. apply andb_true_iff in H. destruct H as [-> H]. now apply IH.
Qed.

(** Every hash is a key: 48 lowercase hexadecimal characters. *)
Lemma getHash_is_key (aString : jsstring) : is_key (getHash aString) = true.
Proof.
  unfold getHash, cryptoHash_finish. cbv zeta.
  destruct (digest_octets (convertToByteArray aString)) as [L B].
  destruct (hex_of_octets _ B) as [Ln Hx]. rewrite L in Ln.
  change 48 with (Z.of_nat 48). rewrite slice_first by (rewrite Ln; cbn; lia).
  unfold is_key. rewrite length_firstn, Ln, forallb_firstn by exact Hx.
  reflexivity.
Qed.

Lemma Forall_firstn {A} (P : A -> Prop) (n : nat) (l : list A) :
  Forall P l -> Forall P (firstn n l).
Proof.
  intros H. revert n. induction H as [|a l Ha _ IH]; intros [|n]; constructor.
  - exact Ha.
  - apply IH.
Qed.

(** Reading the digits [toHexString] wrote for a list of octets gives the
    octets back. *)
Lemma hex_octets_of_toHexString (l : list N) :
  Forall (fun b => (b < 256)%N) l ->
  hex_octets (List.concat (map toHexString l)) = Some l.
Proof.
  induction 1 as [|b l Hb _ IH]; [reflexivity|].
  destruct (toHexString_octet b Hb) as (L & _ & V).
  cbn [map List.concat].
  destruct (toHexString b) as [|h1 [|h2 [|h3 t]]]; try discriminate L.
  cbn [app hex_octets]. now rewrite V, IH.
Qed.

(** C3. For every host, [getKeyForHost] completes with the hash of what
    [getBaseDomainFromHost] returns for that host (leaving the state the
    resolver left), and that key is 48 lowercase hexadecimal characters: the
    first 24 octets of the SHA-256 digest, two digits each.  Read back two
    digits at a time, the key gives exactly those 24 octets, each pair of
    digits denoting its octet. *)
Theorem keyForHost_hashes_base_domain (aHost : jsstring) (st : ModuleState) :
  exists base st',
    getBaseDomainFromHost aHost st = (Return base, st')
    /\ getKeyForHost aHost st = (Return (getHash base), st')
    /\ is_key (getHash base) = true
    /\ getHash base
       = List.concat
           (map toHexString
                (firstn 24 (SHA256.digest (convertToByteArray base))))
    /\ hex_octets (getHash base)
       = Some (firstn 24 (SHA256.digest (convertToByteArray base)))
    /\ List.length (firstn 24 (SHA256.digest (convertToByteArray base))) = 24%nat
    /\ Forall (fun b => hex_pair_value (toHexString b) = Some b)
              (firstn 24 (SHA256.digest (convertToByteArray base))).
Proof.
  destruct (getBaseDomainFromHost_returns aHost st) as (base & new & R & _ & _).
  destruct (digest_octets (convertToByteArray base)) as [L B].
  assert (B24 : Forall (fun b => (b < 256)%N)
                       (firstn 24 (SHA256.digest (convertToByteArray base))))
    by now apply Forall_firstn.
  assert (key : getHash base
                = List.concat
                    (map toHexString
                         (firstn 24 (SHA256.digest (convertToByteArray base))))).
  { unfold getHash, cryptoHash_finish. cbv zeta.
    destruct (hex_of_octets _ B) as [Ln _]. rewrite L in Ln.
    change 48 with (Z.of_nat 48). rewrite slice_first by (rewrite Ln; cbn; lia).
    rewrite join_empty_separator, <- firstn_map.
    apply (firstn_concat_pairs _ 24).
    apply Forall_map. revert B. apply Forall_impl.
    intros b Hb. now destruct (toHexString_octet b Hb). }
  exists base. eexists. split; [exact R|].
  split; [|split; [|split; [|split; [|split]]]].
  - unfold getKeyForHost, bind. rewrite R. reflexivity.
  - apply getHash_is_key.
  - exact key.
  - rewrite key. now apply hex_octets_of_toHexString.
  - rewrite length_firstn, L. reflexivity.
  - revert B24. apply Forall_impl.
    intros b Hb. now destruct (toHexString_octet b Hb) as (_ & _ & V).
Qed.

(** C8. [getKeyForQuery] is deterministic: two runs on equal queries, in any
    two states of the module, complete with the same key; the key is the hash
    of the query itself, 48 lowercase hexadecimal characters, and the run
    leaves the state as it was. *)
Theorem keyForQuery_deterministic
    (aQuery aQuery' : jsstring) (st st' : ModuleState) :
  aQuery = aQuery' ->
  fst (getKeyForQuery aQuery st) = fst (getKeyForQuery aQuery' st')
  /\ getKeyForQuery aQuery st = (Return (getHash aQuery), st)
  /\ is_key (getHash aQuery) = true.
Proof.
  intros ->. repeat split. apply getHash_is_key.
Qed.

(** *** The provider table *)

(** C9. [searchMap] holds exactly four entries, amazon, bing, google and
    yahoo; the path of each starts with a slash and ends with a question
    mark, and its query is one parameter name; the module is loaded with this
    map, and none of its functions changes it, in any state and for any
    argument. *)
Theorem searchMap_fixed_and_wellformed
    (aURI : nsIURI) (aHost aQuery : jsstring) (st : ModuleState) :
  map fst searchMap = [js "amazon"; js "bing"; js "google"; js "yahoo"]
  /\ forallb (fun kv => wellformed_entry (snd kv)) searchMap = true
  /\ st_searchMap loaded = searchMap
  /\ st_searchMap (snd (getBaseDomainFromHost aHost st)) = st_searchMap st
  /\ st_searchMap (snd (getPublicSuffix aURI st)) = st_searchMap st
  /\ st_searchMap (snd (getSearchTermFromURI aURI st)) = st_searchMap st
  /\ st_searchMap (snd (getKeyForHost aHost st)) = st_searchMap st
  /\ st_searchMap (snd (getKeyForQuery aQuery st)) = st_searchMap st.
Proof.
  destruct (getBaseDomainFromHost_returns aHost st) as (b & n1 & R1 & _ & _).
  destruct (getPublicSuffix_returns aURI st) as (s & n2 & R2 & _ & _).
  destruct (getSearchTermFromURI_state aURI st) as (n3 & R3 & _).
  repeat split.
  - now rewrite R1.
  - now rewrite R2.
  - now rewrite R3.
  - unfold getKeyForHost, bind. now rewrite R1.
Qed.

(** ** Further properties of the module *)

(** *** The provider name *)

Lemma substr_prefix (a b : jsstring) :
  substr (a ++ b) 0 (Some (strlen a)) = a.
Proof.
  unfold substr, strlen. cbn [Z.ltb Z.compare].
  rewrite length_app, Z.sub_0_r, Z.max_l by lia.
  rewrite Z.min_l by lia.
  destruct (Z.of_nat (List.length a) <=? 0) eqn:E.
  - apply Z.leb_le in E. destruct a; [reflexivity | cbn in E; lia].
  - cbn [Z.to_nat skipn]. rewrite Nat2Z.id, firstn_app, firstn_all, Nat.sub_diag.
    cbn [firstn]. apply app_nil_r.
Qed.

(** Cutting [suffix] and the dot before it off [name.suffix] leaves
    [name]. *)
Lemma provider_name_of_host (name suffix : jsstring) :
  substr (name ++ js "." ++ suffix) 0
         (Some (strlen (name ++ js "." ++ suffix) - strlen suffix - 1))
  = name.
Proof.
  replace (strlen (name ++ js "." ++ suffix) - strlen suffix - 1)
    with (strlen name).
  - apply substr_prefix.
  - unfold strlen. rewrite !length_app. cbn [List.length js map list_ascii_of_string].
    lia.
Qed.

Lemma suffix_occurs_in_host (name suffix : jsstring) :
  (indexOf (name ++ js "." ++ suffix) suffix =? -1) = false.
Proof.
  apply Z.eqb_neq. intros H. apply indexOf_absent in H. apply H.
  exists (name ++ js "."), []. now rewrite app_nil_r, <- app_assoc.
Qed.

(** X1. When the resolved host is [name.suffix] for the resolved public
    suffix and [searchMap] has no property [name], own or inherited,
    [getSearchTermFromURI] returns the empty string, whatever the path. *)
Theorem searchTerm_unknown_provider
    (aURI : nsIURI) (st : ModuleState) (name publicSuffix : jsstring) :
  fst (getBaseDomainFromHost (uri_host aURI) st)
  = Return (name ++ js "." ++ publicSuffix) ->
  fst (getPublicSuffix aURI st) = Return publicSuffix ->
  own (st_searchMap st) name = None ->
  inherited name = false ->
  fst (getSearchTermFromURI aURI st) = Return (js "").
Proof.
  intros Hh Hs Hown Hinh.
  destruct (getSearchTermFromURI_resolved aURI st) as (h & s & new & Eh & Es & _ & ->).
  assert (h = name ++ js "." ++ publicSuffix) by congruence.
  assert (s = publicSuffix) by congruence. subst h s.
  rewrite suffix_occurs_in_host, provider_name_of_host.
  cbv zeta. unfold bind, read_searchMap. cbv beta iota.
  cbn [st_searchMap]. unfold lookup. rewrite Hown, Hinh. reflexivity.
Qed.

Lemma indexOf_self (s : jsstring) : indexOf s s = 0.
Proof. apply indexOf_zero. exists []. now rewrite app_nil_r. Qed.

(** X2. When the effective-TLD service throws on both lookups, host and
    suffix both fall back to [aURI.host]; [getSearchTermFromURI] then returns
    the empty string, and the console holds the two messages of the
    resolvers, in the order of the calls, and nothing else new. *)
Theorem searchTerm_service_down
    (aURI : nsIURI) (st : ModuleState) (e1 e2 : exn) :
  st_searchMap st = searchMap ->
  eTLDService_getBaseDomainFromHost (uri_host aURI) = Throw e1 ->
  eTLDService_getPublicSuffix aURI = Throw e2 ->
  getSearchTermFromURI aURI st
  = (Return (js ""),
     logged [js "eTLDService error: " ++ exn_toString e2]
       (logged [js "eTLDService error getting tld from"; uri_host aURI] st)).
Proof.
  intros Hmap E1 E2.
  unfold getSearchTermFromURI. unfold bind at 1.
  rewrite getBaseDomainFromHost_run, E1. unfold bind at 1.
  rewrite getPublicSuffix_run, E2.
  rewrite indexOf_self. cbn [Z.eqb]. cbv zeta.
  unfold bind, read_searchMap. cbv beta iota.
  rewrite substr_negative_length by lia.
  replace (st_searchMap (logged _ (logged _ st))) with searchMap
    by (symmetry; exact Hmap).
  reflexivity.
Qed.

(** X3. When the provider name is no entry of [searchMap] but a member every
    object inherits (constructor, toString, ...), the table test passes, the
    member has no [path], and the function compares the URI's path with the
    text of [undefined]: it returns the empty string unless the path begins
    with that word, and then reading [.path.length] throws a [TypeError]. *)
Theorem searchTerm_inherited_name
    (aURI : nsIURI) (st : ModuleState) (host publicSuffix : jsstring) :
  fst (getBaseDomainFromHost (uri_host aURI) st) = Return host ->
  fst (getPublicSuffix aURI st) = Return publicSuffix ->
  occurs_in publicSuffix host ->
  own (st_searchMap st)
      (substr host 0 (Some (strlen host - strlen publicSuffix - 1))) = None ->
  inherited (substr host 0 (Some (strlen host - strlen publicSuffix - 1))) = true ->
  (begins_with (uri_path aURI) (js "undefined") ->
   fst (getSearchTermFromURI aURI st) = Throw TypeError)
  /\ (~ begins_with (uri_path aURI) (js "undefined") ->
      fst (getSearchTermFromURI aURI st) = Return (js "")).
Proof.
  intros Hh Hs Hocc Hown Hinh.
  destruct (getSearchTermFromURI_resolved aURI st) as (h & s & new & Eh & Es & _ & ->).
  rewrite Eh in Hh. rewrite Es in Hs. injection Hh as ->. injection Hs as ->.
  destruct (indexOf host publicSuffix =? -1) eqn:K.
  { apply Z.eqb_eq, indexOf_absent in K. contradiction. }
  cbv zeta. unfold bind, read_searchMap, call. cbv beta iota.
  cbn [st_searchMap]. unfold lookup. rewrite Hown, Hinh.
  cbn [found_truthy negb found_path ToString path_length].
  split; intros Hpre.
  - apply indexOf_zero in Hpre. rewrite Hpre. reflexivity.
  - destruct (indexOf (uri_path aURI) (js "undefined") =? 0) eqn:Z0; [|reflexivity].
    apply Z.eqb_eq, indexOf_zero in Z0. contradiction.
Qed.

(** X4. An exception of the parser is not caught: for a known provider and a
    matching path, when [querystring.parse] throws on the rest of the path,
    [getSearchTermFromURI] throws the same exception. *)
Theorem searchTerm_parser_exception
    (aURI : nsIURI) (st : ModuleState) (host publicSuffix : jsstring)
    (e : ProviderEntry) (x : exn) :
  fst (getBaseDomainFromHost (uri_host aURI) st) = Return host ->
  fst (getPublicSuffix aURI st) = Return publicSuffix ->
  occurs_in publicSuffix host ->
  own (st_searchMap st)
      (substr host 0 (Some (strlen host - strlen publicSuffix - 1))) = Some e ->
  begins_with (uri_path aURI) (provider_path e) ->
  querystring_parse (substr (uri_path aURI) (strlen (provider_path e)) None)
  = Throw x ->
  fst (getSearchTermFromURI aURI st) = Throw x.
Proof.
  intros Hh Hs Hocc Hown Hpre Hparse.
  destruct (getSearchTermFromURI_resolved aURI st) as (h & s & new & Eh & Es & _ & ->).
  rewrite Eh in Hh. rewrite Es in Hs. injection Hh as ->. injection Hs as ->.
  destruct (indexOf host publicSuffix =? -1) eqn:K.
  { apply Z.eqb_eq, indexOf_absent in K. contradiction. }
  cbv zeta. unfold bind, read_searchMap, call. cbv beta iota.
  cbn [st_searchMap]. unfold lookup. rewrite Hown.
  cbn [found_truthy negb found_path ToString path_length].
  apply indexOf_zero in Hpre. rewrite Hpre. cbn [Z.eqb negb].
  rewrite Hparse. reflexivity.
Qed.

(** X5. The exceptions of the effective-TLD service never leave
    [getSearchTermFromURI]: whatever it throws is the [TypeError] of a missing
    [path], an exception thrown by the parser, or the [URIError] of
    [decodeURI]. *)
Theorem searchTerm_exceptions
    (aURI : nsIURI) (st : ModuleState) (x : exn) :
  fst (getSearchTermFromURI aURI st) = Throw x ->
  x = TypeError
  \/ x = URIError
  \/ exists s, querystring_parse s = Throw x.
Proof.
  destruct (getSearchTermFromURI_resolved aURI st) as (h & s & new & _ & _ & _ & ->).
  destruct (indexOf h s =? -1); [discriminate|].
  cbv zeta. unfold bind, read_searchMap, call, ret. cbv beta iota.
  destruct (negb (found_truthy _)); [discriminate|].
  destruct (negb (indexOf _ _ =? 0)); [discriminate|].
  destruct (path_length _) as [n|t] eqn:L.
  - destruct (querystring_parse _) as [[q|]|t] eqn:P.
    + unfold decodeURI, option_completion.
      destruct (decodeURI_string _); cbn [fst]; [discriminate|].
      intros H. injection H as <-. now right; left.
    + discriminate.
    + cbn [fst]. intros H. injection H as <-. right; right. eexists. exact P.
  - cbn [fst]. intros H. injection H as <-. left.
    destruct (found_path _); cbn in L; congruence.
Qed.

(** *** A plain value *)

Lemma tokens_plain (s : jsstring) :
  ~ In 37%N s -> tokens s = Some (map Lit s).
Proof.
  induction s as [|c s IH]; intros H; [reflexivity|].
  cbn [tokens map].
  destruct (N.eqb c 37) eqn:E.
  - apply N.eqb_eq in E. exfalso. apply H. now left.
  - rewrite IH by (intros I; apply H; now right). reflexivity.
Qed.

Lemma decodeTokens_plain (reserved : N -> bool) (s : jsstring) :
  decodeTokens reserved (map Lit s) = Some s.
Proof.
  induction s as [|c s IH]; [reflexivity|].
  cbn [map decodeTokens]. now rewrite IH.
Qed.

(** Decoding leaves a string without a percent sign as it is. *)
Lemma Decode_plain (reserved : N -> bool) (s : jsstring) :
  ~ In 37%N s -> Decode reserved s = Some s.
Proof.
  intros H. unfold Decode. rewrite tokens_plain by assumption.
  apply decodeTokens_plain.
Qed.

Lemma first_occurrence (c : N) (s : jsstring) :
  In c s -> exists before after, s = before ++ c :: after /\ ~ In c before.
Proof.
  induction s as [|d s IH]; intros H; [contradiction|].
  destruct (N.eq_dec d c) as [->|ne].
  - exists [], s. split; [reflexivity | intros []].
  - destruct H as [H|H]; [contradiction|].
    destruct (IH H) as (before & after & -> & F).
    exists (d :: before), after. split; [reflexivity|].
    intros [I|I]; [contradiction | now apply F].
Qed.

Lemma lower_not_upper (c : N) : is_upper (lower c) = false.
Proof.
  unfold lower, is_upper.
  destruct ((65 <=? c)%N && (c <=? 90)%N) eqn:E.
  - apply andb_true_iff in E. destruct E as [A B].
    apply N.leb_le in A, B. apply andb_false_iff. right. apply N.leb_gt. lia.
  - exact E.
Qed.

(** Replacing the first plus sign of a text without uppercase letters by a
    space keeps its length and adds no uppercase letter. *)
Lemma replace_plus_shape (s : jsstring) :
  forallb (fun c => negb (is_upper c)) s = true ->
  List.length (replace s (js "+") (js " ")) = List.length s
  /\ forallb (fun c => negb (is_upper c)) (replace s (js "+") (js " ")) = true.
Proof.
  intros H.
  destruct (in_dec N.eq_dec 43%N s) as [I|I].
  - destruct (first_occurrence _ _ I) as (before & after & -> & F).
    change (js "+") with [43%N]. change (js " ") with [32%N].
    rewrite replace_first_char by assumption.
    rewrite forallb_app in *. cbn [forallb] in *.
    apply andb_true_iff in H. destruct H as [-> H].
    apply andb_true_iff in H. destruct H as [_ ->].
    split; [|reflexivity]. rewrite !length_app. reflexivity.
  - change (js "+") with [43%N]. change (js " ") with [32%N].
    rewrite replace_char_absent by assumption. now split.
Qed.

(** The term for a plain ASCII value, in the terms of the function's own
    tests. *)
Lemma searchTerm_plain_value_run
    (aURI : nsIURI) (st : ModuleState) (host publicSuffix : jsstring)
    (e : ProviderEntry) (q : object) (v : jsstring) :
  st_searchMap st = searchMap ->
  fst (getBaseDomainFromHost (uri_host aURI) st) = Return host ->
  fst (getPublicSuffix aURI st) = Return publicSuffix ->
  occurs_in publicSuffix host ->
  own searchMap
      (substr host 0 (Some (strlen host - strlen publicSuffix - 1))) = Some e ->
  begins_with (uri_path aURI) (provider_path e) ->
  querystring_parse (substr (uri_path aURI) (strlen (provider_path e)) None)
  = Return (Some q) ->
  own q (provider_query e) = Some (Str v) ->
  ~ In 37%N v ->
  forallb (fun c => (c <? 128)%N) v = true ->
  exists term,
    fst (getSearchTermFromURI aURI st) = Return term
    /\ term = replace (map lower v) (js "+") (js " ")
    /\ List.length term = List.length v
    /\ forallb (fun c => negb (is_upper c)) term = true.
Proof.
  intros Hmap Hh Hs Hocc Hown Hpre Hparse Hv Hplain Hascii.
  exists (replace (map lower v) (js "+") (js " ")).
  assert (low : forallb (fun c => negb (is_upper c)) (map lower v) = true).
  { apply forallb_forall. intros c I. apply in_map_iff in I.
    destruct I as (d & <- & _). now rewrite lower_not_upper. }
  destruct (replace_plus_shape _ low) as [L U]. rewrite length_map in L.
  repeat split; trivial.
  destruct (getSearchTermFromURI_resolved aURI st) as (h & s & new & Eh & Es & _ & ->).
  rewrite Eh in Hh. rewrite Es in Hs. injection Hh as ->. injection Hs as ->.
  destruct (indexOf host publicSuffix =? -1) eqn:K.
  { apply Z.eqb_eq, indexOf_absent in K. contradiction. }
  cbv zeta. unfold bind, read_searchMap, call, ret. cbv beta iota.
  cbn [st_searchMap]. unfold lookup. rewrite Hmap, Hown.
  cbn [found_truthy negb found_path found_query ToString path_length].
  apply indexOf_zero in Hpre. rewrite Hpre. cbn [Z.eqb negb].
  rewrite Hparse. cbv beta iota.
  unfold Get. rewrite Hv. unfold decodeURI, decodeURI_string.
  cbn [ToString]. rewrite Decode_plain by assumption.
  cbn [option_completion fst]. unfold toLowerCase. now rewrite Hascii.
Qed.

Lemma searchMap_entry (name : jsstring) (e : ProviderEntry) :
  In (name, e) searchMap -> own searchMap name = Some e.
Proof.
  intros H. cbn [searchMap In] in H.
  repeat (destruct H as [H|H]; [injection H as <- <-; reflexivity|]).
  contradiction.
Qed.

(** X6. For every entry of [searchMap]: when the resolved host is the entry's
    name, a dot and the public suffix, the path is the entry's path followed
    by a query, and the parsed query holds under the entry's parameter a
    plain ASCII string without a percent sign, nothing throws and the term
    returned is that string with A to Z moved to a to z and its first plus
    sign replaced by a space: as long as the value, and free of uppercase
    letters. *)
Theorem searchTerm_plain_value
    (aURI : nsIURI) (st : ModuleState) (name publicSuffix rest : jsstring)
    (e : ProviderEntry) (q : object) (v : jsstring) :
  st_searchMap st = searchMap ->
  In (name, e) searchMap ->
  fst (getBaseDomainFromHost (uri_host aURI) st)
  = Return (name ++ js "." ++ publicSuffix) ->
  fst (getPublicSuffix aURI st) = Return publicSuffix ->
  uri_path aURI = provider_path e ++ rest ->
  querystring_parse rest = Return (Some q) ->
  own q (provider_query e) = Some (Str v) ->
  ~ In 37%N v ->
  forallb (fun c => (c <? 128)%N) v = true ->
  exists term,
    fst (getSearchTermFromURI aURI st) = Return term
    /\ term = replace (map lower v) (js "+") (js " ")
    /\ List.length term = List.length v
    /\ forallb (fun c => negb (is_upper c)) term = true.
Proof.
  intros Hmap Hin Hh Hs Hpath Hparse Hv Hplain Hascii.
  apply (searchTerm_plain_value_run aURI st (name ++ js "." ++ publicSuffix)
           publicSuffix e q v); trivial.
  - exists (name ++ js "."), []. now rewrite app_nil_r, <- app_assoc.
  - rewrite provider_name_of_host. now apply searchMap_entry.
  - now exists rest.
  - now rewrite Hpath, substr_after_prefix.
Qed.

(** *** What the call logs *)

(** X9. What [getSearchTermFromURI] adds to the console, in order: the
    message of [getBaseDomainFromHost] if the service threw there, the
    message of [getPublicSuffix] if it threw there, and after them at most
    the parse-failure message, which appears only when the parser handed
    back a false value, the call then returning the empty string. *)
Theorem searchTerm_console (aURI : nsIURI) (st : ModuleState) :
  exists tail,
    console (snd (getSearchTermFromURI aURI st))
    = console st
      ++ match eTLDService_getBaseDomainFromHost (uri_host aURI) with
         | Return _ => []
         | Throw _ => [[js "eTLDService error getting tld from"; uri_host aURI]]
         end
      ++ match eTLDService_getPublicSuffix aURI with
         | Return _ => []
         | Throw x => [[js "eTLDService error: " ++ exn_toString x]]
         end
      ++ tail
    /\ (tail = []
        \/ tail = [[js "Couldn't parse"; uri_path aURI]]
           /\ fst (getSearchTermFromURI aURI st) = Return (js "")
           /\ exists s, querystring_parse s = Return None).
Proof.
  set (m1 := match eTLDService_getBaseDomainFromHost (uri_host aURI) with
             | Return _ => []
             | Throw _ => [[js "eTLDService error getting tld from"; uri_host aURI]]
             end).
  set (m2 := match eTLDService_getPublicSuffix aURI with
             | Return _ => []
             | Throw x => [[js "eTLDService error: " ++ exn_toString x]]
             end).
  set (st2 := {| st_searchMap := st_searchMap st;
                 console := (console st ++ m1) ++ m2 |}).
  assert (main : exists res tail,
             getSearchTermFromURI aURI st
             = (res, {| st_searchMap := st_searchMap st;
                        console := console st ++ m1 ++ m2 ++ tail |})
             /\ (tail = []
                 \/ tail = [[js "Couldn't parse"; uri_path aURI]]
                    /\ res = Return (js "")
                    /\ exists s, querystring_parse s = Return None)).
  { assert (quiet : forall res : completion jsstring,
               exists res' tail,
                 (res, st2)
                 = (res', {| st_searchMap := st_searchMap st;
                             console := console st ++ m1 ++ m2 ++ tail |})
                 /\ (tail = []
                     \/ tail = [[js "Couldn't parse"; uri_path aURI]]
                        /\ res' = Return (js "")
                        /\ exists s, querystring_parse s = Return None)).
    { intros res. exists res, []. split; [|now left].
      subst st2. now rewrite app_nil_r, app_assoc. }
    unfold getSearchTermFromURI. unfold bind at 1.
    rewrite getBaseDomainFromHost_run.
    assert (R1 : exists h,
               match eTLDService_getBaseDomainFromHost (uri_host aURI) with
               | Return d => (Return d, st)
               | Throw _ =>
                   (Return (uri_host aURI),
                    logged [js "eTLDService error getting tld from"; uri_host aURI]
                      st)
               end
               = (Return h, {| st_searchMap := st_searchMap st;
                               console := console st ++ m1 |})).
    { subst m1. destruct (eTLDService_getBaseDomainFromHost (uri_host aURI)).
      - eexists. rewrite app_nil_r. now destruct st.
      - eexists. reflexivity. }
    destruct R1 as [h ->]. unfold bind at 1. rewrite getPublicSuffix_run.
    assert (R2 : exists sfx,
               match eTLDService_getPublicSuffix aURI with
               | Return d =>
                   (Return d, {| st_searchMap := st_searchMap st;
                                 console := console st ++ m1 |})
               | Throw x =>
                   (Return (uri_host aURI),
                    logged [js "eTLDService error: " ++ exn_toString x]
                      {| st_searchMap := st_searchMap st;
                         console := console st ++ m1 |})
               end
               = (Return sfx, st2)).
    { subst m2 st2. destruct (eTLDService_getPublicSuffix aURI).
      - eexists. now rewrite app_nil_r.
      - eexists. reflexivity. }
    destruct R2 as [sfx ->].
    cbv zeta. unfold bind, read_searchMap, call, ret.
    destruct (indexOf h sfx =? -1); cbv beta iota; [apply quiet|].
    destruct (negb (found_truthy _)); [apply quiet|].
    destruct (negb (indexOf _ _ =? 0)); [apply quiet|].
    destruct (path_length _); [|apply quiet].
    destruct (querystring_parse _) as [[q|]|] eqn:P; [| |apply quiet].
    - destruct (decodeURI _); apply quiet.
    - exists (Return (js "")), [[js "Couldn't parse"; uri_path aURI]]. split.
      + unfold console_log, logged. subst st2. cbn [st_searchMap console].
        now rewrite <- !app_assoc.
      + right. repeat split. eexists. exact P. }
  destruct main as (res & tail & -> & H).
  exists tail. split; [reflexivity | exact H].
Qed.

(** *** Keys of hosts *)

(** X7. Two hosts for which the effective-TLD service gives the same base
    domain get the same key, the one [getKeyForQuery] gives for that base
    domain, and neither call logs; a host the service throws on gets the key
    of the host string itself, with one message logged. *)
Theorem keyForHost_by_base_domain
    (aHost aHost' base : jsstring) (st st' : ModuleState) :
  eTLDService_getBaseDomainFromHost aHost = Return base ->
  eTLDService_getBaseDomainFromHost aHost' = Return base ->
  getKeyForHost aHost st = (Return (getHash base), st)
  /\ getKeyForHost aHost' st' = (Return (getHash base), st')
  /\ fst (getKeyForHost aHost st) = fst (getKeyForQuery base st)
  /\ (forall other x,
        eTLDService_getBaseDomainFromHost other = Throw x ->
        getKeyForHost other st
        = (Return (getHash other),
           logged [js "eTLDService error getting tld from"; other] st)).
Proof.
  intros E E'. unfold getKeyForHost, bind.
  rewrite !getBaseDomainFromHost_run, E, E'.
  repeat split. intros other x Ex.
  now rewrite getBaseDomainFromHost_run, Ex.
Qed.

(** *** Character codes as hexadecimal text *)

Lemma hexval_bound (c x : N) : hexval c = Some x -> (x < 16)%N.
Proof.
  unfold hexval.
  destruct ((48 <=? c)%N && (c <=? 57)%N) eqn:A.
  { apply andb_true_iff in A. destruct A as [A B]. apply N.leb_le in A, B.
    intros H. injection H as <-. lia. }
  destruct ((65 <=? c)%N && (c <=? 70)%N) eqn:B.
  { apply andb_true_iff in B. destruct B as [B C]. apply N.leb_le in B, C.
    intros H. injection H as <-. lia. }
  destruct ((97 <=? c)%N && (c <=? 102)%N) eqn:C; [|discriminate].
  apply andb_true_iff in C. destruct C as [C D]. apply N.leb_le in C, D.
  intros H. injection H as <-. lia.
Qed.

(** The digit written for a value below sixteen is a lowercase hexadecimal
    digit, and it denotes that value. *)
Lemma hexdigit_spec (d : N) :
  (d < 16)%N -> hexval (hexdigit d) = Some d /\ is_lower_hex (hexdigit d) = true.
Proof.
  intros H.
  assert (all :
    forallb (fun n => match hexval (hexdigit (N.of_nat n)) with
                      | Some v => N.eqb v (N.of_nat n)
                      | None => false
                      end && is_lower_hex (hexdigit (N.of_nat n)))
            (seq 0 16) = true) by (vm_compute; reflexivity).
  rewrite forallb_forall in all.
  specialize (all (N.to_nat d)). rewrite N2Nat.id in all.
  apply andb_true_iff in all; [|apply in_seq; lia].
  destruct all as [V L]. split; [|exact L].
  destruct (hexval (hexdigit d)); [|discriminate].
  apply N.eqb_eq in V. now subst.
Qed.

Lemma hex_number_snoc (ds : jsstring) (d : N) :
  hex_number (ds ++ [d])
  = match hex_number ds, hexval d with
    | Some a, Some x => Some (16 * a + x)%N
    | _, _ => None
    end.
Proof. unfold hex_number. now rewrite fold_left_app. Qed.

(** With enough fuel the digits written for [n] denote [n]. *)
Lemma toString16_digits_spec (fuel : nat) :
  forall (n : N) (acc : jsstring),
    (n < 16 ^ N.of_nat (S fuel))%N ->
    exists ds,
      toString16_digits (S fuel) n acc = ds ++ acc
      /\ hex_number ds = Some n
      /\ forallb is_lower_hex ds = true
      /\ ds <> [].
Proof.
  induction fuel as [|fuel IH]; intros n acc H;
    assert (lo : (n mod 16 < 16)%N) by (apply N.mod_upper_bound; discriminate);
    destruct (hexdigit_spec _ lo) as [V L];
    pose proof (N.div_mod n 16 ltac:(discriminate)) as dm;
    cbn [toString16_digits];
    destruct (n / 16 =? 0)%N eqn:E.
  1, 3: apply N.eqb_eq in E;
    exists [hexdigit (n mod 16)]; repeat split;
    [ unfold hex_number; cbn [fold_left]; rewrite V; f_equal; lia
    | cbn [forallb]; now rewrite L
    | discriminate ].
  - apply N.eqb_neq in E. exfalso. apply E.
    apply N.div_small. exact H.
  - apply N.eqb_neq in E.
    assert (small : (n / 16 < 16 ^ N.of_nat (S fuel))%N).
    { apply N.Div0.div_lt_upper_bound.
      rewrite <- N.pow_succ_r', <- Nat2N.inj_succ. exact H. }
    destruct (IH (n / 16)%N (hexdigit (n mod 16) :: acc) small)
      as (ds & R & Hn & F & ne).
    exists (ds ++ [hexdigit (n mod 16)]). repeat split.
    + change (toString16_digits (S fuel) (n / 16) (hexdigit (n mod 16) :: acc)
              = (ds ++ [hexdigit (n mod 16)]) ++ acc).
      rewrite R, <- app_assoc. reflexivity.
    + rewrite hex_number_snoc, Hn, V. f_equal. lia.
    + rewrite forallb_app, F. cbn [forallb]. now rewrite L.
    + intros Z. apply app_eq_nil in Z. destruct Z as [_ Z]. discriminate.
Qed.

(** The fuel [toString16] starts with is enough for every number: its text
    is a non-empty run of lowercase hexadecimal digits denoting the
    number. *)
Lemma toString16_spec (n : N) :
  hex_number (toString16 n) = Some n
  /\ forallb is_lower_hex (toString16 n) = true
  /\ toString16 n <> [].
Proof.
  assert (enough : (n < 16 ^ N.of_nat (S (N.to_nat (N.log2 n))))%N).
  { rewrite Nat2N.inj_succ, N2Nat.id.
    apply N.lt_le_trans with (2 ^ N.succ (N.log2 n))%N.
    - destruct (N.eq_dec n 0) as [->|nz]; [cbn; lia|].
      apply N.log2_spec. lia.
    - apply N.pow_le_mono_l. lia. }
  destruct (toString16_digits_spec _ n [] enough) as (ds & R & Hn & F & ne).
  unfold toString16. rewrite R, app_nil_r. auto.
Qed.

Lemma slice_last_two (front : jsstring) (a b : N) :
  slice (front ++ [a; b]) (-2) None = [a; b].
Proof.
  unfold slice, strlen. rewrite length_app. cbn [List.length Z.ltb Z.compare].
  set (len := Z.of_nat (List.length front + 2)).
  replace (Z.to_nat (Z.max (len + -2) 0)) with (List.length front) by lia.
  replace (Z.to_nat (Z.max (len - Z.max (len + -2) 0) 0)) with 2%nat by lia.
  rewrite skipn_app, skipn_all, Nat.sub_diag. reflexivity.
Qed.

(** X8. [toHexString] of any character code, also one above 255, is exactly
    two lowercase hexadecimal digits, and they denote the code modulo 256:
    [slice(-2)] keeps the low octet and the zero in front pads a single
    digit. *)
Theorem toHexString_low_octet (charCode : N) :
  exists h1 h2,
    toHexString charCode = [h1; h2]
    /\ is_lower_hex h1 && is_lower_hex h2 = true
    /\ hex_pair_value (toHexString charCode) = Some (charCode mod 256)%N.
Proof.
  destruct (toString16_spec charCode) as (Hn & F & ne).
  unfold toHexString.
  destruct (toString16 charCode) as [|d0 rest] using rev_ind; [contradiction|].
  clear IHrest.
  rewrite hex_number_snoc in Hn. rewrite forallb_app in F.
  apply andb_true_iff in F. destruct F as [Frest Fd]. cbn [forallb] in Fd.
  rewrite andb_true_r in Fd.
  destruct (hex_number rest) as [a|] eqn:Ha; [|discriminate].
  destruct (hexval d0) as [x0|] eqn:H0; [|discriminate].
  assert (Hc : charCode = (16 * a + x0)%N) by congruence. clear Hn.
  pose proof (hexval_bound _ _ H0) as B0.
  destruct rest as [|d1 front] using rev_ind.
  - exists 48%N, d0.
    assert (a = 0%N) by (unfold hex_number in Ha; cbn [fold_left] in Ha; congruence).
    subst a.
    change (js "0" ++ [] ++ [d0]) with ([] ++ [48%N; d0]).
    rewrite slice_last_two. repeat split.
    + now rewrite Fd.
    + cbn [hex_pair_value]. change (hexval 48) with (Some 0%N). rewrite H0.
      f_equal. rewrite Hc, N.mod_small by lia. lia.
  - clear IHfront. exists d1, d0.
    rewrite hex_number_snoc in Ha. rewrite forallb_app in Frest.
    apply andb_true_iff in Frest. destruct Frest as [_ Fd1].
    cbn [forallb] in Fd1. rewrite andb_true_r in Fd1.
    destruct (hex_number front) as [a'|]; [|discriminate].
    destruct (hexval d1) as [x1|] eqn:H1; [|discriminate].
    assert (Ha' : a = (16 * a' + x1)%N) by congruence. clear Ha.
    pose proof (hexval_bound _ _ H1) as B1.
    replace (js "0" ++ (front ++ [d1]) ++ [d0])
      with ((js "0" ++ front) ++ [d1; d0])
      by (rewrite <- !app_assoc; reflexivity).
    rewrite slice_last_two. repeat split.
    + now rewrite Fd1, Fd.
    + cbn [hex_pair_value]. rewrite H1, H0. f_equal.
      rewrite Hc, Ha'.
      replace (16 * (16 * a' + x1) + x0)%N with (16 * x1 + x0 + a' * 256)%N by lia.
      rewrite N.Div0.mod_add. symmetry. apply N.mod_small. lia.
Qed.

End bpUtil.

(** ** Runs on concrete input

    The module run with the stand-in service, the SDK's parser and the
    identity in place of the engine's non-ASCII lowercasing.  Every run below
    is on ASCII text, where [toLowerCase] never calls that function; on other
    text the identity is not what the engine does. *)

Local Abbreviation run_searchTerm h p :=
  (getSearchTermFromURI StubTLD.getBaseDomainFromHost StubTLD.getPublicSuffix
     querystring.parse (fun s => s) {| uri_host := js h; uri_path := js p |} loaded).

Example indexOf_ex1 : indexOf (js "google.com") (js "com") = 7.
Proof. reflexivity. Qed.
Example indexOf_ex2 : indexOf (js "google.com") (js "org") = -1.
Proof. reflexivity. Qed.
Example indexOf_ex3 : indexOf (js "") (js "") = 0.
Proof. reflexivity. Qed.
Example substr_ex1 : substr (js "google.com") 0 (Some 6) = js "google".
Proof. reflexivity. Qed.
Example substr_ex2 : substr (js "com") 0 (Some (-1)) = js "".
Proof. reflexivity. Qed.
Example substr_ex3 : substr (js "/search?q=a") 8 None = js "q=a".
Proof. reflexivity. Qed.
Example slice_ex1 : slice (js "0ab") (-2) None = js "ab".
Proof. reflexivity. Qed.
Example slice_ex2 : slice (js "7") (-2) None = js "7".
Proof. reflexivity. Qed.
Example replace_ex1 : replace (js "a+b+c") (js "+") (js " ") = js "a b+c".
Proof. reflexivity. Qed.
Example split_ex1 : split 38 (js "a=1&b&") = [js "a=1"; js "b"; js ""].
Proof. reflexivity. Qed.
Example decodeURI_ex1 : decodeURI_string (js "hello+world") = Some (js "hello+world").
Proof. reflexivity. Qed.
Example decodeURI_ex2 : decodeURI_string (js "a%20b%2Bc") = Some (js "a b%2Bc").
Proof. reflexivity. Qed.
Example decodeURI_ex3 : decodeURI_string (js "100%") = None.
Proof. reflexivity. Qed.
Example decodeURI_ex4 : decodeURI_string (js "%E2%82%AC") = Some [8364%N].
Proof. reflexivity. Qed.
Example decodeURI_ex5 : decodeURI_string (js "%C0%80") = None.
Proof. reflexivity. Qed.
Example decodeURI_ex6 :
  decodeURI_string (js "%F0%9F%98%80") = Some [55357%N; 56832%N].
Proof. reflexivity. Qed.
Example decodeURIComponent_ex1 :
  decodeURIComponent_string (js "a%20b%2Bc") = Some (js "a b+c").
Proof. reflexivity. Qed.
Example toString16_ex1 : toString16 0 = js "0".
Proof. reflexivity. Qed.
Example toString16_ex2 : toString16 255 = js "ff".
Proof. reflexivity. Qed.
Example toString16_ex3 : toString16 4096 = js "1000".
Proof. reflexivity. Qed.
Example parse_ex1 : querystring.parse (js "") = Return (Some []).
Proof. reflexivity. Qed.
Example parse_ex2 :
  querystring.parse (js "q=hello+world&hl=en")
  = Return (Some [(js "q", Str (js "hello+world")); (js "hl", Str (js "en"))]).
Proof. reflexivity. Qed.
Example parse_ex3 :
  querystring.parse (js "q=a&q=b%20c&x")
  = Return (Some [(js "q", Arr [Str (js "a"); Str (js "b c")]); (js "x", Str [])]).
Proof. reflexivity. Qed.
Example parse_ex4 : querystring.parse (js "q=100%") = Throw URIError.
Proof. reflexivity. Qed.
Example searchTerm_ex1 :
  run_searchTerm "www.google.com" "/search?q=hello+world"
  = (Return (js "hello world"), loaded).
Proof. reflexivity. Qed.
Example searchTerm_ex2 :
  run_searchTerm "www.bing.com" "/search?q=test" = (Return (js "test"), loaded).
Proof. reflexivity. Qed.
Example searchTerm_ex3 :
  run_searchTerm "www.example.org" "/search?q=test" = (Return (js ""), loaded).
Proof. reflexivity. Qed.
Example searchTerm_ex4 :
  run_searchTerm "www.google.com" "/other?q=test" = (Return (js ""), loaded).
Proof. reflexivity. Qed.
Example searchTerm_ex5 :
  run_searchTerm "google.com" "/search?" = (Return (js "undefined"), loaded).
Proof. reflexivity. Qed.
Example searchTerm_ex6 :
  run_searchTerm "www.google.com" "/search?q=A+B+C" = (Return (js "a b+c"), loaded).
Proof. reflexivity. Qed.
Example searchTerm_ex7 :
  run_searchTerm "www.google.com" "/search?q=100%25" = (Throw URIError, loaded).
Proof. reflexivity. Qed.
Example searchTerm_ex8 :
  run_searchTerm "constructor.com" "undefined" = (Throw TypeError, loaded).
Proof. reflexivity. Qed.
Example hex_octets_ex1 :
  hex_octets (getHash (js "abc"))
  = Some [186; 120; 22; 191; 143; 1; 207; 234; 65; 65; 64; 222;
          93; 174; 34; 35; 176; 3; 97; 163; 150; 23; 122; 156]%N.
Proof. vm_compute. reflexivity. Qed.
Example hex_octets_ex2 : hex_octets (js "0g") = None.
Proof. reflexivity. Qed.
Example getHash_ex1 :
  getHash (js "abc") = js "ba7816bf8f01cfea414140de5dae2223b00361a396177a9c".
Proof. vm_compute. reflexivity. Qed.

Example sha256_ex1 :
  join [] (map toHexString (cryptoHash_finish (convertToByteArray (js "abc"))))
  = js "ba7816bf8f01cfea414140de5dae2223b00361a396177a9cb410ff61f20015ad".
Proof. vm_compute. reflexivity. Qed.
Example sha256_ex2 :
  join [] (map toHexString (cryptoHash_finish (convertToByteArray (js ""))))
  = js "e3b0c44298fc1c149afbf4c8996fb92427ae41e4649b934ca495991b7852b855".
Proof. vm_compute. reflexivity. Qed.
Example sha256_ex3 :
  join [] (map toHexString (cryptoHash_finish (convertToByteArray
    (js "abcdbcdecdefdefgefghfghighijhijkijkljklmklmnlmnomnopnopq"))))
  = js "248d6a61d20638b8e5c026930c3e6039a33ce45964ff2167f6ecedd419db06c1".
Proof. vm_compute. reflexivity. Qed.
Example convertToByteArray_ex1 :
  convertToByteArray [8364; 55357; 56832; 55357]%N
  = [226; 130; 172; 240; 159; 152; 128; 239; 191; 189]%N.
Proof. reflexivity. Qed.
Example searchTerm_ex9 :
  run_searchTerm "localhost" "/search?q=x"
  = (Return (js ""),
     logged [js "eTLDService error getting tld from"; js "localhost"] loaded).
Proof. reflexivity. Qed.

(** The SDK's [parse] hands back an object whenever it returns. *)
Lemma querystring_parse_object (s : jsstring) :
  querystring.parse s <> Return None.
Proof.
  unfold querystring.parse.
  destruct (strlen s =? 0); [discriminate|].
  destruct (querystring.forEach_chunk _ _); discriminate.
Qed.

(** ** The properties at concrete inputs *)

(** C1 at [host = "google.com"], [path = "/search?"]: the query is empty, the
    parameter [q] is missing, and the result is the word undefined. *)
Lemma searchTerm_missing_param_witness :
  fst (run_searchTerm "google.com" "/search?") = Return (js "undefined")
  /\ fst (run_searchTerm "google.com" "/search?") <> Return (js "").
Proof.
  assert (Hocc : occurs_in (js "com") (js "google.com"))
    by now exists (js "google."), [].
  assert (Hpre : begins_with (js "/search?") (js "/search?")) by now exists [].
  pose proof (searchTerm_missing_param_is_undefined
                StubTLD.getBaseDomainFromHost StubTLD.getPublicSuffix
                querystring.parse (fun s => s)
                {| uri_host := js "google.com"; uri_path := js "/search?" |}
                loaded (js "google.com") (js "com")
                {| provider_path := js "/search?"; provider_query := js "q" |}
                [] eq_refl eq_refl eq_refl Hocc eq_refl Hpre eq_refl eq_refl)
    as [H _].
  split; [exact H|]. rewrite H. discriminate.
Defined.

(** C4 at [path = "/search?q=hello+world"] and at a value with two plus
    signs. *)
Lemma searchTerm_normalizes_value_witness :
  fst (run_searchTerm "www.google.com" "/search?q=hello+world")
  = Return (js "hello world")
  /\ fst (run_searchTerm "www.google.com" "/search?q=A+B+C") = Return (js "a b+c").
Proof.
  assert (Hocc : occurs_in (js "com") (js "google.com"))
    by now exists (js "google."), [].
  split.
  - assert (Hpre : begins_with (js "/search?q=hello+world") (js "/search?"))
      by now exists (js "q=hello+world").
    rewrite (proj1 (searchTerm_normalizes_value
                StubTLD.getBaseDomainFromHost StubTLD.getPublicSuffix
                querystring.parse (fun s => s)
                {| uri_host := js "www.google.com";
                   uri_path := js "/search?q=hello+world" |}
                loaded (js "google.com") (js "com")
                {| provider_path := js "/search?"; provider_query := js "q" |}
                [(js "q", Str (js "hello+world"))] (Str (js "hello+world"))
                eq_refl eq_refl eq_refl Hocc eq_refl Hpre eq_refl eq_refl)).
    reflexivity.
  - assert (Hpre : begins_with (js "/search?q=A+B+C") (js "/search?"))
      by now exists (js "q=A+B+C").
    rewrite (proj1 (searchTerm_normalizes_value
                StubTLD.getBaseDomainFromHost StubTLD.getPublicSuffix
                querystring.parse (fun s => s)
                {| uri_host := js "www.google.com";
                   uri_path := js "/search?q=A+B+C" |}
                loaded (js "google.com") (js "com")
                {| provider_path := js "/search?"; provider_query := js "q" |}
                [(js "q", Str (js "A+B+C"))] (Str (js "A+B+C"))
                eq_refl eq_refl eq_refl Hocc eq_refl Hpre eq_refl eq_refl)).
    reflexivity.
Defined.

(** C5 with resolvers that disagree: base domain [example.com], public suffix
    [co.uk]. *)
Lemma searchTerm_suffix_not_in_host_witness :
  fst (getSearchTermFromURI
         (fun _ => Return (js "example.com")) (fun _ => Return (js "co.uk"))
         querystring.parse (fun s => s)
         {| uri_host := js "www.example.co.uk"; uri_path := js "/search?q=x" |}
         loaded)
  = Return (js "").
Proof.
  assert (Hno : ~ occurs_in (js "co.uk") (js "example.com"))
    by (apply indexOf_absent; reflexivity).
  exact (searchTerm_suffix_not_in_host
           (fun _ => Return (js "example.com")) (fun _ => Return (js "co.uk"))
           querystring.parse (fun s => s) _ loaded (js "example.com") (js "co.uk")
           eq_refl eq_refl Hno).
Defined.

(** C6 at [host = "localhost"]: the service has no base domain for it, the
    suffix is the host itself. *)
Lemma searchTerm_host_equals_suffix_witness :
  fst (run_searchTerm "localhost" "/search?q=x") = Return (js "").
Proof.
  exact (proj2 (proj2 (searchTerm_host_equals_suffix
           StubTLD.getBaseDomainFromHost StubTLD.getPublicSuffix
                querystring.parse (fun s => s)
           {| uri_host := js "localhost"; uri_path := js "/search?q=x" |}
           loaded (js "localhost") eq_refl eq_refl eq_refl))).
Defined.

(** C7 at [host = "www.google.com"], [path = "/other?q=test"]. *)
Lemma searchTerm_prefix_mismatch_witness :
  fst (run_searchTerm "www.google.com" "/other?q=test") = Return (js "").
Proof.
  assert (Hno : ~ begins_with (js "/other?q=test") (js "/search?"))
    by (intros H; apply indexOf_zero in H; discriminate H).
  exact (searchTerm_prefix_mismatch
           StubTLD.getBaseDomainFromHost StubTLD.getPublicSuffix
                querystring.parse (fun s => s)
           {| uri_host := js "www.google.com"; uri_path := js "/other?q=test" |}
           loaded (js "google.com") (js "com")
           {| provider_path := js "/search?"; provider_query := js "q" |}
           eq_refl eq_refl eq_refl Hno).
Defined.

(** C8 at the query [abc], in the loaded module and in one that has logged a
    message. *)
Lemma keyForQuery_deterministic_witness :
  fst (getKeyForQuery (js "abc") loaded)
  = fst (getKeyForQuery (js "abc") (logged [js "x"] loaded))
  /\ getKeyForQuery (js "abc") loaded = (Return (getHash (js "abc")), loaded)
  /\ is_key (getHash (js "abc")) = true.
Proof.
  exact (keyForQuery_deterministic (js "abc") (js "abc") loaded
           (logged [js "x"] loaded) eq_refl).
Defined.

(** C10 at [host = "www.google.com"], [path = "/search?q=x"], with the SDK's
    parser: the guard is reached and nothing is logged. *)
Lemma parse_failure_branch_unreachable_witness :
  exists new,
    console (snd (run_searchTerm "www.google.com" "/search?q=x"))
    = console loaded ++ new
    /\ Forall (fun args => ~ parse_failure_message args) new.
Proof.
  exact (parse_failure_branch_unreachable
           StubTLD.getBaseDomainFromHost StubTLD.getPublicSuffix
           querystring.parse (fun s => s)
           {| uri_host := js "www.google.com"; uri_path := js "/search?q=x" |}
           loaded querystring_parse_object).
Defined.

(** ** The further properties at concrete inputs *)

(** X1 at [host = "www.example.org"]. *)
Lemma searchTerm_unknown_provider_witness :
  fst (run_searchTerm "www.example.org" "/search?q=test") = Return (js "").
Proof.
  exact (searchTerm_unknown_provider
           StubTLD.getBaseDomainFromHost StubTLD.getPublicSuffix
           querystring.parse (fun s => s)
           {| uri_host := js "www.example.org"; uri_path := js "/search?q=test" |}
           loaded (js "example") (js "org") eq_refl eq_refl eq_refl eq_refl).
Defined.

(** X2 with a service that knows no host, at an IP address. *)
Lemma searchTerm_service_down_witness :
  getSearchTermFromURI
    (fun _ => Throw (NSError (js "NS_ERROR_HOST_IS_IP_ADDRESS")))
    (fun _ => Throw (NSError (js "NS_ERROR_HOST_IS_IP_ADDRESS")))
    querystring.parse (fun s => s)
    {| uri_host := js "10.0.0.1"; uri_path := js "/search?q=x" |} loaded
  = (Return (js ""),
     {| st_searchMap := searchMap;
        console := [ [js "eTLDService error getting tld from"; js "10.0.0.1"];
                     [js "eTLDService error: NS_ERROR_HOST_IS_IP_ADDRESS"] ] |}).
Proof.
  exact (searchTerm_service_down
           (fun _ => Throw (NSError (js "NS_ERROR_HOST_IS_IP_ADDRESS")))
           (fun _ => Throw (NSError (js "NS_ERROR_HOST_IS_IP_ADDRESS")))
           querystring.parse (fun s => s)
           {| uri_host := js "10.0.0.1"; uri_path := js "/search?q=x" |} loaded
           (NSError (js "NS_ERROR_HOST_IS_IP_ADDRESS"))
           (NSError (js "NS_ERROR_HOST_IS_IP_ADDRESS"))
           eq_refl eq_refl eq_refl).
Defined.

(** X3 at [host = "constructor.com"], with a path that begins with the word
    undefined and with one that does not. *)
Lemma searchTerm_inherited_name_witness :
  fst (run_searchTerm "constructor.com" "undefined") = Throw TypeError
  /\ fst (run_searchTerm "constructor.com" "/search?q=x") = Return (js "").
Proof.
  assert (Hocc : occurs_in (js "com") (js "constructor.com"))
    by now exists (js "constructor."), [].
  assert (Hyes : begins_with (js "undefined") (js "undefined")) by now exists [].
  assert (Hno : ~ begins_with (js "/search?q=x") (js "undefined"))
    by (intros H; apply indexOf_zero in H; discriminate H).
  split.
  - exact (proj1 (searchTerm_inherited_name
             StubTLD.getBaseDomainFromHost StubTLD.getPublicSuffix
             querystring.parse (fun s => s)
             {| uri_host := js "constructor.com"; uri_path := js "undefined" |}
             loaded (js "constructor.com") (js "com")
             eq_refl eq_refl Hocc eq_refl eq_refl) Hyes).
  - exact (proj2 (searchTerm_inherited_name
             StubTLD.getBaseDomainFromHost StubTLD.getPublicSuffix
             querystring.parse (fun s => s)
             {| uri_host := js "constructor.com"; uri_path := js "/search?q=x" |}
             loaded (js "constructor.com") (js "com")
             eq_refl eq_refl Hocc eq_refl eq_refl) Hno).
Defined.

(** X4 with the SDK's parser at a malformed escape. *)
Lemma searchTerm_parser_exception_witness :
  fst (run_searchTerm "www.google.com" "/search?q=%zz") = Throw URIError.
Proof.
  assert (Hocc : occurs_in (js "com") (js "google.com"))
    by now exists (js "google."), [].
  assert (Hpre : begins_with (js "/search?q=%zz") (js "/search?"))
    by now exists (js "q=%zz").
  exact (searchTerm_parser_exception
           StubTLD.getBaseDomainFromHost StubTLD.getPublicSuffix
           querystring.parse (fun s => s)
           {| uri_host := js "www.google.com"; uri_path := js "/search?q=%zz" |}
           loaded (js "google.com") (js "com")
           {| provider_path := js "/search?"; provider_query := js "q" |}
           URIError eq_refl eq_refl Hocc eq_refl Hpre eq_refl).
Defined.

(** X5 at a value that decodes to a lone percent sign: [decodeURI] throws. *)
Lemma searchTerm_exceptions_witness :
  URIError = TypeError
  \/ URIError = URIError
  \/ exists s, querystring.parse s = Throw URIError.
Proof.
  exact (searchTerm_exceptions
           StubTLD.getBaseDomainFromHost StubTLD.getPublicSuffix
           querystring.parse (fun s => s)
           {| uri_host := js "www.google.com"; uri_path := js "/search?q=100%25" |}
           loaded URIError eq_refl).
Defined.

(** X6 at yahoo, parameter [p], with two plus signs and uppercase letters. *)
Lemma searchTerm_plain_value_witness :
  exists term,
    fst (run_searchTerm "search.yahoo.com" "/search?p=Hello+World+Again&ei=UTF-8")
    = Return term
    /\ term = replace (map lower (js "Hello+World+Again")) (js "+") (js " ")
    /\ List.length term = List.length (js "Hello+World+Again")
    /\ forallb (fun c => negb (is_upper c)) term = true.
Proof.
  assert (Hin : In (js "yahoo",
                    {| provider_path := js "/search?"; provider_query := js "p" |})
                   searchMap) by (cbn; tauto).
  assert (Hplain : ~ In 37%N (js "Hello+World+Again"))
    by (intros H; cbn in H; repeat (destruct H as [H|H]; [discriminate H|]); exact H).
  exact (searchTerm_plain_value
           StubTLD.getBaseDomainFromHost StubTLD.getPublicSuffix
           querystring.parse (fun s => s)
           {| uri_host := js "search.yahoo.com";
              uri_path := js "/search?p=Hello+World+Again&ei=UTF-8" |}
           loaded (js "yahoo") (js "com") (js "p=Hello+World+Again&ei=UTF-8")
           {| provider_path := js "/search?"; provider_query := js "p" |}
           [(js "p", Str (js "Hello+World+Again")); (js "ei", Str (js "UTF-8"))]
           (js "Hello+World+Again")
           eq_refl Hin eq_refl eq_refl eq_refl eq_refl eq_refl Hplain eq_refl).
Defined.

(** X7 at two hosts of one base domain, and at a host without one. *)
Lemma keyForHost_by_base_domain_witness :
  getKeyForHost StubTLD.getBaseDomainFromHost (js "www.google.com") loaded
  = (Return (getHash (js "google.com")), loaded)
  /\ getKeyForHost StubTLD.getBaseDomainFromHost (js "mail.google.com") loaded
     = (Return (getHash (js "google.com")), loaded)
  /\ fst (getKeyForHost StubTLD.getBaseDomainFromHost (js "www.google.com") loaded)
     = fst (getKeyForQuery (js "google.com") loaded)
  /\ getKeyForHost StubTLD.getBaseDomainFromHost (js "localhost") loaded
     = (Return (getHash (js "localhost")),
        logged [js "eTLDService error getting tld from"; js "localhost"] loaded).
Proof.
  pose proof (keyForHost_by_base_domain StubTLD.getBaseDomainFromHost
                (js "www.google.com") (js "mail.google.com") (js "google.com")
                loaded loaded eq_refl eq_refl) as (A & B & C & D).
  exact (conj A (conj B (conj C (D (js "localhost") _ eq_refl)))).
Defined.
